(** * Compiler configuration synthesis (src/compiler.ts)

    A shallow embedding of the configuration model, the override parser
    ([addCompilerArgumentsToConfig]), the diagnostic-output parser
    ([ClangCompiler.parseCompilerDefaults]), the two probe strategies and the
    factory ([Compiler.create]), together with the properties the
    specification states about them.

    Conventions.
    - A JavaScript string is a [string]; its code units are the 8-bit
      characters of [ascii] (the Latin-1 range).
    - [Set<string>] is a [gset string], [Map<string, Define>] a
      [gmap string Define]: the properties below are about contents, never
      about iteration order.
    - A function that mutates the configuration it is given takes that
      configuration and returns the updated one.  Object identity (which
      container a configuration refers to) is modelled separately, by an
      explicit store, in [Module Heap].
    - An [async] function returns an [outcome]: the promise is resolved
      with a value or rejected with the message of the thrown [Error]. *)

From Stdlib Require Import ZArith Ascii String.
From stdpp Require Import base tactics option list gmap strings.

Local Open Scope Z_scope.

(* String concatenation unfolds on a constructor, as list append does. *)
#[local] Arguments String.append !_ _ / : simpl nomatch.

(** ** JavaScript string primitives *)

Module JS.

(** [s.length] *)
Definition length (s : string) : Z := Z.of_nat (String.length s).

(** [s.charAt(i)]: the one-character string at index [i], or the empty
    string when [i] is out of range. *)
Definition charAt (s : string) (i : nat) : string :=
  match String.get i s with
  | Some c => String c ""
  | None => ""
  end.

(** Index arguments of [substring] are clamped to [0 .. s.length]. *)
Definition clamp (s : string) (i : Z) : nat :=
  Z.to_nat (Z.min (Z.max i 0) (length s)).

(** [s.substring(a, b)]: the arguments are clamped, and swapped when
    [a > b]. *)
Definition substring (s : string) (a b : Z) : string :=
  let a' := clamp s a in
  let b' := clamp s b in
  String.substring (Nat.min a' b') (Nat.max a' b' - Nat.min a' b') s.

(** [s.substring(a)] *)
Definition substring_from (s : string) (a : Z) : string :=
  substring s a (length s).

(** [s.startsWith(p)] *)
Definition startsWith (s p : string) : bool := String.prefix p s.

Fixpoint indexOf_go (text pat : string) (i : Z) : Z :=
  if String.prefix pat text then i
  else match text with
       | "" => -1
       | String _ rest => indexOf_go rest pat (i + 1)
       end.

(** [text.indexOf(pat)]: index of the first occurrence, [-1] if none. *)
Definition indexOf (text pat : string) : Z := indexOf_go text pat 0.

(** [s.endsWith(suffix)] *)
Definition endsWith (s suffix : string) : bool :=
  let n := String.length s in
  let m := String.length suffix in
  if (m <=? n)%nat
  then String.eqb (String.substring (n - m) m s) suffix
  else false.

(** White space and line terminators of ECMAScript that fit in one
    8-bit code unit: TAB, LF, VT, FF, CR, SP and NBSP. *)
Definition is_white (c : ascii) : bool :=
  match c with
  | "009" | "010" | "011" | "012" | "013" | " " | "160" => true
  | _ => false
  end%char.

Fixpoint trimStart (s : string) : string :=
  match s with
  | "" => ""
  | String c rest => if is_white c then trimStart rest else s
  end.

Fixpoint trimEnd (s : string) : string :=
  match s with
  | "" => ""
  | String c rest =>
      match trimEnd rest with
      | "" => if is_white c then "" else String c ""
      | r => String c r
      end
  end.

(** [s.trim()] *)
Definition trim (s : string) : string := trimEnd (trimStart s).

(** [s.split(sep)] for a one-character separator.  The result is never
    empty: [''.split('\n')] is [['']]. *)
Fixpoint split (sep : ascii) (s : string) : list string :=
  match s with
  | "" => [""]
  | String c rest =>
      if Ascii.eqb c sep then "" :: split sep rest
      else match split sep rest with
           | [] => [String c ""]
           | piece :: pieces => String c piece :: pieces
           end
  end.

(** Truthiness of a [string|undefined] value: [undefined] and the empty
    string are falsy. *)
Definition truthy (s : option string) : bool :=
  match s with
  | None | Some "" => false
  | Some _ => true
  end.

End JS.

(** ** Data model *)

Inductive VERSIONS : Set :=
  | c89 | c99 | c11 | cpp98 | cpp03 | cpp11 | cpp14 | cpp17.

Inductive INTELLISENSE_MODES : Set :=
  | msvc_x64 | gcc_x64 | clang_x64.

Definition FRAMEWORK_MARKER : string := " (framework directory)".

Definition CPP_STANDARD : VERSIONS := cpp14.
Definition CPP_VERSION : string := "c++14".
Definition C_STANDARD : VERSIONS := c99.
Definition C_VERSION : string := "gnu99".

Inductive FileType : Set := C | CPP.

Record Define : Set := mkDefine { key : string; value : string }.

Definition buildDefine (text splitter : string) : Define :=
  let pos := JS.indexOf text splitter in
  if 0 <=? pos
  then {| key := JS.substring text 0 pos;
          value := JS.substring_from text (pos + 1) |}
  else {| key := text; value := "1" |}.

Record CompileConfig : Type := mkConfig {
  includes : gset string;
  defines : gmap string Define;
  forcedIncludes : gset string;
  intelliSenseMode : INTELLISENSE_MODES;
  standard : VERSIONS;
}.

(** [config.includes.add(path)] *)
Definition add_include (path : string) (config : CompileConfig) : CompileConfig :=
  {| includes := {[path]} ∪ includes config;
     defines := defines config;
     forcedIncludes := forcedIncludes config;
     intelliSenseMode := intelliSenseMode config;
     standard := standard config |}.

(** [config.defines.set(define.key, define)] *)
Definition set_define (define : Define) (config : CompileConfig) : CompileConfig :=
  {| includes := includes config;
     defines := <[key define := define]> (defines config);
     forcedIncludes := forcedIncludes config;
     intelliSenseMode := intelliSenseMode config;
     standard := standard config |}.

(** [config.forcedIncludes.add(path)] *)
Definition add_forcedInclude (path : string) (config : CompileConfig) : CompileConfig :=
  {| includes := includes config;
     defines := defines config;
     forcedIncludes := {[path]} ∪ forcedIncludes config;
     intelliSenseMode := intelliSenseMode config;
     standard := standard config |}.

(** The character [ch] occurs somewhere in [s]. *)
Fixpoint occurs (ch : ascii) (s : string) : Prop :=
  match s with
  | "" => False
  | String c rest => ch = c ∨ occurs ch rest
  end.

(** ** Argument tokenizer *)

(** Modelled from the spec: [splitCmdLine] of [./shared], which is not part
    of the sources at hand.  Section 4.1 asks for the tokens a POSIX-like
    shell would pass: tokens are separated by white space, single- and
    double-quoted substrings are kept with their quotes consumed, a backslash
    makes the next character literal, empty input yields no token, and an
    unterminated quote ends its token at the end of the input.  The functions
    of [compiler.ts] below take the tokenizer as a parameter; this model
    instantiates it on concrete inputs. *)
Module Tokenizer.

Definition is_quote (c : ascii) : bool :=
  match c with
  | "039" | "034" => true
  | _ => false
  end%char.

Definition is_escape (c : ascii) : bool :=
  match c with
  | "092" => true
  | _ => false
  end%char.

(** The token under construction, most recent character first. *)
Definition push (c : ascii) (cur : option string) : option string :=
  Some (String c (default "" cur)).

Definition emit (cur : option string) : list string :=
  match cur with
  | Some t => [String.rev t]
  | None => []
  end.

Fixpoint scan (quote : option ascii) (cur : option string) (s : string)
  : list string :=
  match s with
  | "" => emit cur
  | String c rest =>
      if is_escape c then
        match rest with
        | "" => emit (push c cur)
        | String c' rest' => scan quote (push c' cur) rest'
        end
      else
        match quote with
        | Some q =>
            if Ascii.eqb c q then scan None cur rest
            else scan quote (push c cur) rest
        | None =>
            if JS.is_white c then emit cur ++ scan None None rest
            else if is_quote c then scan (Some c) (Some (default "" cur)) rest
            else scan None (push c cur) rest
        end
  end.

(** Modelled from the spec: the tokens of a command line, section 4.1. *)
Definition splitCmdLine (cmdLine : string) : list string :=
  scan None None cmdLine.

End Tokenizer.

(** ** Source-level results *)

(** Outcome of an [async] function. *)
Inductive outcome (A : Type) : Type :=
  | Resolved (a : A)
  | Rejected (message : string).
Arguments Resolved {A} a.
Arguments Rejected {A} message.

(** [CmdArgs] of [./exec]: an argument vector. *)
Definition CmdArgs : Type := list string.

(** [ProcessResult] of [./exec]: the two captured streams. *)
Record ProcessResult : Type := mkProcessResult {
  stdout : string;
  stderr : string;
}.

Inductive CompilerClass : Set := ClangCompiler | MsvcCompiler.

(** A [Compiler] instance: its class and the fields set by the constructor. *)
Record Compiler (Path : Type) : Type := mkCompiler {
  class : CompilerClass;
  srcdir : Path;
  command : CmdArgs;
  type : FileType;
  defaults : CompileConfig;
}.
Arguments mkCompiler {Path}.
Arguments class {Path}.
Arguments srcdir {Path}.
Arguments command {Path}.
Arguments type {Path}.
Arguments defaults {Path}.

(** ** Override parser *)

Section OverrideParser.

(** [splitCmdLine] of [./shared]. *)
Variable splitCmdLine : string → list string.

(** The [while (arg = args.shift())] loop of [addCompilerArgumentsToConfig]
    over the queue [args].  The loop condition ends the loop on an empty
    queue ([undefined]) and on an empty token (the empty string is falsy). *)
Fixpoint process_args (forceIncludeArg : string) (args : list string)
    (config : CompileConfig) : CompileConfig :=
  match args with
  | [] => config
  | arg :: args =>
      if negb (JS.truthy (Some arg)) then config
      else if (JS.length arg <? 2)
              || (negb (String.eqb (JS.charAt arg 0) "-")
                  && negb (String.eqb (JS.charAt arg 0) "/"))
      then process_args forceIncludeArg args config
      else if String.eqb (JS.charAt arg 1) "D" then
        let define := buildDefine (JS.substring_from arg 2) "=" in
        process_args forceIncludeArg args (set_define define config)
      else if String.eqb (JS.charAt arg 1) "I" then
        process_args forceIncludeArg args
          (add_include (JS.substring_from arg 2) config)
      else if String.eqb arg forceIncludeArg then
        match args with
        | [] => config
        | include :: args =>
            if JS.truthy (Some include)
            then process_args forceIncludeArg args
                   (add_forcedInclude include config)
            else process_args forceIncludeArg args config
        end
      else process_args forceIncludeArg args config
  end.

Definition addCompilerArgumentsToConfig (cmdLine : option string)
    (forceIncludeArg : string) (config : CompileConfig) : CompileConfig :=
  if negb (JS.truthy cmdLine) then config
  else process_args forceIncludeArg (splitCmdLine (default "" cmdLine)) config.

(** The [addCompilerArgumentsToConfig] method of the two classes. *)
Definition Compiler_addCompilerArgumentsToConfig {Path : Type}
    (this : Compiler Path) (cmdLine : option string)
    (config : CompileConfig) : CompileConfig :=
  match class this with
  | ClangCompiler => addCompilerArgumentsToConfig cmdLine "-include" config
  | MsvcCompiler => addCompilerArgumentsToConfig cmdLine "-FI" config
  end.

End OverrideParser.

(** One iteration of the same loop: the queue and configuration after the
    body has run once, or [None] when the loop condition fails. *)
Definition loop_step (forceIncludeArg : string)
    (state : list string * CompileConfig)
  : option (list string * CompileConfig) :=
  let '(args, config) := state in
  match args with
  | [] => None
  | arg :: args =>
      if negb (JS.truthy (Some arg)) then None
      else if (JS.length arg <? 2)
              || (negb (String.eqb (JS.charAt arg 0) "-")
                  && negb (String.eqb (JS.charAt arg 0) "/"))
      then Some (args, config)
      else if String.eqb (JS.charAt arg 1) "D" then
        let define := buildDefine (JS.substring_from arg 2) "=" in
        Some (args, set_define define config)
      else if String.eqb (JS.charAt arg 1) "I" then
        Some (args, add_include (JS.substring_from arg 2) config)
      else if String.eqb arg forceIncludeArg then
        match args with
        | [] => Some ([], config)
        | include :: args =>
            if JS.truthy (Some include)
            then Some (args, add_forcedInclude include config)
            else Some (args, config)
        end
      else Some (args, config)
  end.

(** The state of the loop after [n] iterations, if it runs that long. *)
Fixpoint loop_steps (forceIncludeArg : string) (n : nat)
    (state : list string * CompileConfig)
  : option (list string * CompileConfig) :=
  match n with
  | O => Some state
  | S n =>
      match loop_step forceIncludeArg state with
      | Some state' => loop_steps forceIncludeArg n state'
      | None => None
      end
  end.

(** ** Diagnostic-output parser *)

(** The body of the [for (let line of lines)] loop of
    [ClangCompiler.parseCompilerDefaults], on the pair of the flag
    [inIncludes] and the accumulating configuration. *)
Definition parse_line (state : bool * CompileConfig) (line : string)
  : bool * CompileConfig :=
  let '(inIncludes, defaults) := state in
  let rest (inIncludes : bool) :=
    if JS.startsWith line "#include " then (true, defaults)
    else if JS.startsWith line "#define " then
      let define := buildDefine (JS.trim (JS.substring_from line 8)) " " in
      (inIncludes, set_define define defaults)
    else (inIncludes, defaults) in
  if inIncludes then
    if String.eqb (JS.charAt line 0) " " then
      let include := JS.trim line in
      if JS.endsWith include FRAMEWORK_MARKER
      then (inIncludes,
            add_include
              (JS.substring include 0
                 (JS.length include - JS.length FRAMEWORK_MARKER))
              defaults)
      else (inIncludes, add_include include defaults)
    else rest false
  else rest inIncludes.

Definition ClangCompiler_parseCompilerDefaults (output : string)
    (defaults : CompileConfig) : CompileConfig :=
  let lines := JS.split "010" (JS.trim output) in
  (foldl parse_line (false, defaults) lines).2.

(** ** Probe strategies and factory *)

Definition EMPTY_RESULT : string := "Compiler returned empty includes or defined.".

Section Probe.

(** Source roots ([Path] of [./shared]). *)
Context {Path : Type}.

(** [process.platform] *)
Variable platform : string.

(** [config.getCompiler(srcdir.toUri(), type)] of [./config]: the command
    configured for a source root and file type, if any. *)
Variable getCompiler : Path → FileType → option CmdArgs.

(** [exec] of [./exec]: runs a command; the promise resolves with the
    captured streams or is rejected. *)
Variable exec : CmdArgs → outcome ProcessResult.

(** The command line [ClangCompiler.fetch] hands to [exec]. *)
Definition probe_command (srcdir : Path) (command : CmdArgs)
    (type : FileType) (buildConfig : gmap string string) : CmdArgs :=
  let sdk :=
    if String.eqb platform "darwin"
    then buildConfig !! "MACOS_SDK_DIR" else None in
  let defaultCmd := default command (getCompiler srcdir type) in
  let defaultCmd :=
    match type with
    | CPP => defaultCmd ++ ["-std=" +:+ CPP_VERSION; "-xc++"]
    | C => defaultCmd ++ ["-std=" +:+ C_VERSION; "-xc"]
    end in
  let defaultCmd :=
    if JS.truthy sdk then
      if String.eqb platform "darwin"
      then defaultCmd ++ ["-isysroot"; default "" sdk]
      else defaultCmd
    else defaultCmd in
  defaultCmd ++ ["-Wp,-v"; "-E"; "-dD"; "/dev/null"].

(** The fresh configuration of [ClangCompiler.fetch] after both streams
    have been parsed into it. *)
Definition probed_defaults (type : FileType) (result : ProcessResult)
  : CompileConfig :=
  let defaults :=
    {| includes := ∅;
       defines := ∅;
       forcedIncludes := ∅;
       intelliSenseMode := clang_x64;
       standard := match type with C => C_STANDARD | CPP => CPP_STANDARD end |} in
  let defaults := ClangCompiler_parseCompilerDefaults (stdout result) defaults in
  ClangCompiler_parseCompilerDefaults (stderr result) defaults.

Definition ClangCompiler_fetch (srcdir : Path) (command : CmdArgs)
    (type : FileType) (buildConfig : gmap string string)
  : outcome (Compiler Path) :=
  match exec (probe_command srcdir command type buildConfig) with
  | Rejected e => Rejected e
  | Resolved result =>
      let defaults := probed_defaults type result in
      if (size (includes defaults) =? 0)%nat || (size (defines defaults) =? 0)%nat
      then Rejected EMPTY_RESULT
      else Resolved (mkCompiler ClangCompiler srcdir command type defaults)
  end.

Definition MsvcCompiler_fetch (srcdir : Path) (command : CmdArgs)
    (type : FileType) (compilerType : string) : outcome (Compiler Path) :=
  let defaults :=
    {| includes := ∅;
       defines := ∅;
       forcedIncludes := ∅;
       intelliSenseMode :=
         if String.eqb compilerType "msvc" then msvc_x64 else clang_x64;
       standard := match type with C => C_STANDARD | CPP => CPP_STANDARD end |} in
  if (size (includes defaults) =? 0)%nat || (size (defines defaults) =? 0)%nat
  then Rejected EMPTY_RESULT
  else Resolved (mkCompiler MsvcCompiler srcdir command type defaults).

Definition Compiler_create (srcdir : Path) (command : CmdArgs)
    (type : FileType) (config : gmap string string)
  : outcome (Compiler Path) :=
  let compilerType := config !! "CC_TYPE" in
  if negb (JS.truthy compilerType)
  then Rejected "Unable to determine compiler types."
  else
    let compilerType := default "" compilerType in
    if String.eqb compilerType "clang"
    then ClangCompiler_fetch srcdir command type config
    else if String.eqb compilerType "clang-cl"
            || String.eqb compilerType "msvc"
    then MsvcCompiler_fetch srcdir command type compilerType
    else Rejected ("Unknown compiler type " +:+ compilerType +:+ ".").

End Probe.

(** ** Object store: configurations and their containers *)

(** A [CompileConfig] object holds references to a [Set], a [Map] and a
    second [Set]; [cloneConfig] and the mutating methods act on a store of
    such containers.  A [Define] is never written to once [buildDefine] has
    returned it, so the entries of a map hold it as a value. *)
Module Heap.

Abbreviation loc := positive.

Inductive container : Type :=
  | SetObject (elements : gset string)
  | MapObject (entries : gmap string Define).

Abbreviation store := (gmap loc container).

(** A [CompileConfig] object: three references and two immutable fields. *)
Record ConfigObject : Type := mkConfigObject {
  includes_ref : loc;
  defines_ref : loc;
  forcedIncludes_ref : loc;
  mode : INTELLISENSE_MODES;
  std : VERSIONS;
}.

Definition alloc (σ : store) (c : container) : store * loc :=
  let l := fresh (dom σ) in (<[l := c]> σ, l).

(** [new Set(source)]: a new container with the elements of the set at
    [source]. *)
Definition new_Set (σ : store) (source : loc) : option (store * loc) :=
  match σ !! source with
  | Some (SetObject elements) => Some (alloc σ (SetObject elements))
  | _ => None
  end.

(** [new Map(source)] *)
Definition new_Map (σ : store) (source : loc) : option (store * loc) :=
  match σ !! source with
  | Some (MapObject entries) => Some (alloc σ (MapObject entries))
  | _ => None
  end.

Definition cloneConfig (σ : store) (config : ConfigObject)
  : option (store * ConfigObject) :=
  '(σ, i) ← new_Set σ (includes_ref config);
  '(σ, d) ← new_Map σ (defines_ref config);
  '(σ, f) ← new_Set σ (forcedIncludes_ref config);
  Some (σ, {| includes_ref := i;
              defines_ref := d;
              forcedIncludes_ref := f;
              mode := mode config;
              std := std config |}).

(** [Compiler.getDefaultConfiguration], for an instance whose [defaults]
    field refers to [defaults]. *)
Definition getDefaultConfiguration (σ : store) (defaults : ConfigObject)
  : option (store * ConfigObject) :=
  cloneConfig σ defaults.

(** [Compiler.getIncludePaths] *)
Definition getIncludePaths (σ : store) (defaults : ConfigObject)
  : option (store * loc) :=
  new_Set σ (includes_ref defaults).

(** Mutating methods of a container: [add], [delete] and [clear] of a
    [Set]; [set], [delete] and [clear] of a [Map]. *)
Inductive mutation : Type :=
  | Set_add (x : string)
  | Set_delete (x : string)
  | Set_clear
  | Map_set (k : string) (v : Define)
  | Map_delete (k : string)
  | Map_clear.

Definition mutate_container (m : mutation) (c : container) : container :=
  match m, c with
  | Set_add x, SetObject s => SetObject ({[x]} ∪ s)
  | Set_delete x, SetObject s => SetObject (s ∖ {[x]})
  | Set_clear, SetObject _ => SetObject ∅
  | Map_set k v, MapObject e => MapObject (<[k := v]> e)
  | Map_delete k, MapObject e => MapObject (delete k e)
  | Map_clear, MapObject _ => MapObject ∅
  | _, _ => c
  end.

(** Calling a mutating method on the container at [l]. *)
Definition mutate (m : mutation) (l : loc) (σ : store) : store :=
  alter (mutate_container m) l σ.

(** A sequence of mutating calls, each on the container it names. *)
Definition mutate_all (calls : list (mutation * loc)) (σ : store) : store :=
  foldl (λ σ call, mutate call.1 call.2 σ) σ calls.

(** The contents a configuration object refers to. *)
Definition read (σ : store) (config : ConfigObject) : option CompileConfig :=
  match σ !! includes_ref config, σ !! defines_ref config,
        σ !! forcedIncludes_ref config with
  | Some (SetObject i), Some (MapObject d), Some (SetObject f) =>
      Some {| includes := i;
              defines := d;
              forcedIncludes := f;
              intelliSenseMode := mode config;
              standard := std config |}
  | _, _, _ => None
  end.

(** The references of a configuration object. *)
Definition refs (config : ConfigObject) : list loc :=
  [includes_ref config; defines_ref config; forcedIncludes_ref config].

End Heap.

(** ** The specification's reading of the two parsers *)

(** The rule of section 4.3 a token falls under. *)
Inductive token_rule : Type :=
  | NotAFlag
  | DefineFlag (remainder : string)
  | IncludeFlag (remainder : string)
  | ForcedIncludeFlag
  | OtherFlag.

Definition classify (forceIncludeFlag token : string) : token_rule :=
  match token with
  | String c0 (String c1 remainder) =>
      if Ascii.eqb c0 "-" || Ascii.eqb c0 "/" then
        if Ascii.eqb c1 "D" then DefineFlag remainder
        else if Ascii.eqb c1 "I" then IncludeFlag remainder
        else if bool_decide (token = forceIncludeFlag) then ForcedIncludeFlag
        else OtherFlag
      else NotAFlag
  | _ => NotAFlag
  end.

(** Tokens consumed left to right by the rules of section 4.3. *)
Fixpoint apply_overrides (forceIncludeFlag : string) (tokens : list string)
    (config : CompileConfig) : CompileConfig :=
  match tokens with
  | [] => config
  | token :: tokens =>
      match classify forceIncludeFlag token with
      | NotAFlag | OtherFlag => apply_overrides forceIncludeFlag tokens config
      | DefineFlag remainder =>
          apply_overrides forceIncludeFlag tokens
            (set_define (buildDefine remainder "=") config)
      | IncludeFlag remainder =>
          apply_overrides forceIncludeFlag tokens (add_include remainder config)
      | ForcedIncludeFlag =>
          match tokens with
          | [] => config
          | path :: tokens =>
              apply_overrides forceIncludeFlag tokens
                (add_forcedInclude path config)
          end
      end
  end.

(** The two states of the diagnostic scan of section 4.4. *)
Inductive listing : Set := Inside | Outside.

(** [path] is the include-path entry of a listing line: the trimmed line,
    without the framework marker when it ends with it. *)
Inductive entry_of (line : string) : string → Prop :=
  | entry_framework path :
      JS.trim line = path +:+ FRAMEWORK_MARKER → entry_of line path
  | entry_plain :
      (∀ path, JS.trim line ≠ path +:+ FRAMEWORK_MARKER) →
      entry_of line (JS.trim line).

(** One line of the two-state scan. *)
Inductive scan_line (line : string)
  : listing * CompileConfig → listing * CompileConfig → Prop :=
  | scan_entry config rest path :
      line = String " " rest →
      entry_of line path →
      scan_line line (Inside, config) (Inside, add_include path config)
  | scan_exit config next :
      (∀ rest, line ≠ String " " rest) →
      scan_line line (Outside, config) next →
      scan_line line (Inside, config) next
  | scan_header config rest :
      line = "#include " +:+ rest →
      scan_line line (Outside, config) (Inside, config)
  | scan_define config rest :
      line = "#define " +:+ rest →
      scan_line line (Outside, config)
        (Outside, set_define (buildDefine (JS.trim rest) " ") config)
  | scan_other config :
      (∀ rest, line ≠ "#include " +:+ rest) →
      (∀ rest, line ≠ "#define " +:+ rest) →
      scan_line line (Outside, config) (Outside, config).

(** The scan over a sequence of lines. *)
Inductive scan_lines
  : list string → listing * CompileConfig → listing * CompileConfig → Prop :=
  | scan_done state : scan_lines [] state state
  | scan_next line lines state state' state'' :
      scan_line line state state' →
      scan_lines lines state' state'' →
      scan_lines (line :: lines) state state''.

(** ** Vocabulary of the properties *)

(** [identifier] occurs in [message]. *)
Definition mentions (message identifier : string) : Prop :=
  ∃ before after, message = before +:+ identifier +:+ after.

(** The empty configuration used in the examples. *)
Definition no_overrides : CompileConfig :=
  {| includes := ∅; defines := ∅; forcedIncludes := ∅;
     intelliSenseMode := clang_x64; standard := cpp14 |}.

Definition newline : string := String "010" "".
Definition double_quote : string := String "034" "".

(** The diagnostic output of example 4 of section 8. *)
Definition probe_fixture : string :=
  "#include <...> search starts here:" +:+ newline
  +:+ " /usr/include" +:+ newline
  +:+ " /System/Library/Frameworks (framework directory)" +:+ newline
  +:+ "End of search list." +:+ newline
  +:+ "#define __VERSION__ " +:+ double_quote +:+ "1" +:+ double_quote
  +:+ newline.

(** What one iteration of the override loop does to the configuration. *)
Inductive update : Type :=
  | Keep
  | SetDefine (define : Define)
  | AddInclude (path : string)
  | AddForcedInclude (path : string).

Definition apply_update (u : update) (config : CompileConfig) : CompileConfig :=
  match u with
  | Keep => config
  | SetDefine define => set_define define config
  | AddInclude path => add_include path config
  | AddForcedInclude path => add_forcedInclude path config
  end.

(** [after] holds at least what [before] holds, with the same two scalar
    fields. *)
Definition grows (before after : CompileConfig) : Prop :=
  includes before ⊆ includes after
  ∧ dom (defines before) ⊆ dom (defines after)
  ∧ forcedIncludes before ⊆ forcedIncludes after
  ∧ intelliSenseMode after = intelliSenseMode before
  ∧ standard after = standard before.

Definition listing_of (inIncludes : bool) : listing :=
  if inIncludes then Inside else Outside.

(** A store holding the three containers of one defaults configuration. *)
Definition contents_fixture : CompileConfig :=
  {| includes := {["/usr/include"]};
     defines := {["__clang__" := {| key := "__clang__"; value := "1" |}]};
     forcedIncludes := ∅;
     intelliSenseMode := clang_x64;
     standard := cpp14 |}.

Definition store_fixture : Heap.store :=
  {[ 1%positive := Heap.SetObject (includes contents_fixture);
     2%positive := Heap.MapObject (defines contents_fixture);
     3%positive := Heap.SetObject (forcedIncludes contents_fixture) ]}.

Definition defaults_fixture : Heap.ConfigObject :=
  {| Heap.includes_ref := 1%positive;
     Heap.defines_ref := 2%positive;
     Heap.forcedIncludes_ref := 3%positive;
     Heap.mode := clang_x64;
     Heap.std := cpp14 |}.

(** ** The override parser, in place *)

(** [addCompilerArgumentsToConfig] as the source runs it: on a configuration
    object whose three containers live in the store, by calls of
    [config.defines.set], [config.includes.add] and
    [config.forcedIncludes.add]. *)
Module InPlace.

Fixpoint process_args (forceIncludeArg : string) (args : list string)
    (config : Heap.ConfigObject) (σ : Heap.store) : Heap.store :=
  match args with
  | [] => σ
  | arg :: args =>
      if negb (JS.truthy (Some arg)) then σ
      else if (JS.length arg <? 2)
              || (negb (String.eqb (JS.charAt arg 0) "-")
                  && negb (String.eqb (JS.charAt arg 0) "/"))
      then process_args forceIncludeArg args config σ
      else if String.eqb (JS.charAt arg 1) "D" then
        let define := buildDefine (JS.substring_from arg 2) "=" in
        process_args forceIncludeArg args config
          (Heap.mutate (Heap.Map_set (key define) define)
             (Heap.defines_ref config) σ)
      else if String.eqb (JS.charAt arg 1) "I" then
        process_args forceIncludeArg args config
          (Heap.mutate (Heap.Set_add (JS.substring_from arg 2))
             (Heap.includes_ref config) σ)
      else if String.eqb arg forceIncludeArg then
        match args with
        | [] => σ
        | include :: args =>
            if JS.truthy (Some include)
            then process_args forceIncludeArg args config
                   (Heap.mutate (Heap.Set_add include)
                      (Heap.forcedIncludes_ref config) σ)
            else process_args forceIncludeArg args config σ
        end
      else process_args forceIncludeArg args config σ
  end.

Definition addCompilerArgumentsToConfig (splitCmdLine : string → list string)
    (cmdLine : option string) (forceIncludeArg : string)
    (config : Heap.ConfigObject) (σ : Heap.store) : Heap.store :=
  if negb (JS.truthy cmdLine) then σ
  else process_args forceIncludeArg (splitCmdLine (default "" cmdLine))
         config σ.

End InPlace.

(** ** Reported state *)

(** The object [toState] resolves with. *)
Record CompilerState : Type := mkCompilerState {
  state_type : string;
  state_command : CmdArgs;
  state_override : option CmdArgs;
  state_includes : nat;
  state_defines : nat;
}.

(** The string value of a [FileType]. *)
Definition FileType_value (type : FileType) : string :=
  match type with
  | C => "c"
  | CPP => "cpp"
  end.

Section CompilerMethods.

Context {Path : Type}.

(** [config.getCompiler(srcdir.toUri(), type)] of [./config]. *)
Variable getCompiler : Path → FileType → option CmdArgs.

(** [Compiler.toState] of the base class. *)
Definition Compiler_toState (this : Compiler Path) : CompilerState :=
  {| state_type := FileType_value (type this);
     state_command := command this;
     state_override := getCompiler (srcdir this) (type this);
     state_includes := size (includes (defaults this));
     state_defines := size (defines (defaults this)) |}.

(** [toState] as the two subclasses override it; both write ['clang'] into
    the [type] field. *)
Definition toState (this : Compiler Path) : CompilerState :=
  let state := Compiler_toState this in
  match class this with
  | ClangCompiler =>
      {| state_type := "clang";
         state_command := state_command state;
         state_override := state_override state;
         state_includes := state_includes state;
         state_defines := state_defines state |}
  | MsvcCompiler =>
      {| state_type := "clang";
         state_command := state_command state;
         state_override := state_override state;
         state_includes := state_includes state;
         state_defines := state_defines state |}
  end.

(** [Compiler.getCommand] *)
Definition Compiler_getCommand (this : Compiler Path) : CmdArgs :=
  default (command this) (getCompiler (srcdir this) (type this)).

End CompilerMethods.

(** ** Configuration provider (src/provider.ts) *)

(** A JavaScript [Set<string>] with its insertion order, as
    [Array.from] reads it. *)
Definition Set_add (x : string) (s : list string) : list string :=
  if decide (x ∈ s) then s else s ++ [x].

(** One answer of [provideConfigurations]. *)
Record SourceFileConfigurationItem (Uri Config : Type) : Type := mkItem {
  uri : Uri;
  configuration : Config;
}.
Arguments mkItem {Uri Config}.
Arguments uri {Uri Config}.
Arguments configuration {Uri Config}.

Section Provider.

(** Source folders ([SourceFolder] of [./folders]), file URIs and the
    configurations of [vscode-cpptools]. *)
Context {Folder Uri Config : Type}.

(** [config.isTagParsingDisable()] *)
Variable isTagParsingDisable : bool.

(** [workspace.getMozillaFolders()] *)
Variable getMozillaFolders : outcome (list Folder).

(** [folder.getIncludePaths()], in iteration order. *)
Variable getIncludePaths : Folder → list string.

(** [workspace.getFolder(uri)] *)
Variable getFolder : Uri → outcome (option Folder).

(** [folder.isMozillaSource()] *)
Variable isMozillaSource : Folder → outcome bool.

(** [folder.getSourceConfiguration(uri)] *)
Variable getSourceConfiguration : Folder → Uri → outcome (option Config).

(** The two nested [for ... of] loops of [provideBrowseConfiguration]. *)
Definition collect_browsePath (folders : list Folder) : list string :=
  foldl (λ browsePath folder,
           foldl (λ browsePath path, Set_add path browsePath)
             browsePath (getIncludePaths folder))
    [] folders.

Definition provideBrowseConfiguration : outcome (list string) :=
  if isTagParsingDisable then Resolved []
  else
    match getMozillaFolders with
    | Rejected e => Rejected e
    | Resolved folders => Resolved (collect_browsePath folders)
    end.

(** The callback [provideConfigurations] maps over the URIs: an item, or
    [undefined] ([None]) when the folder is missing or foreign, the
    configuration is missing, or anything inside the [try] fails. *)
Definition provide_one (uri : Uri)
  : option (SourceFileConfigurationItem Uri Config) :=
  match getFolder uri with
  | Rejected _ => None
  | Resolved None => None
  | Resolved (Some folder) =>
      match isMozillaSource folder with
      | Rejected _ => None
      | Resolved false => None
      | Resolved true =>
          match getSourceConfiguration folder uri with
          | Rejected _ => None
          | Resolved None => None
          | Resolved (Some config) =>
              Some {| uri := uri; configuration := config |}
          end
      end
  end.

Definition provideConfigurations (uris : list Uri)
  : list (SourceFileConfigurationItem Uri Config) :=
  let results := provide_one <$> uris in
  omap id results.

End Provider.

(** ** Vocabulary of the further properties *)

(** The updates of a run, applied in order. *)
Definition apply_updates (us : list update) (config : CompileConfig)
  : CompileConfig :=
  foldl (λ config u, apply_update u config) config us.

(** Every define is stored under its own key. *)
Definition keyed (config : CompileConfig) : Prop :=
  ∀ k d, defines config !! k = Some d → key d = k.

(** A token that is neither the forced-include flag nor a define or include
    flag (['-D...'], ['/D...'], ['-I...'], ['/I...']). *)
Definition plain_token (forceIncludeArg token : string) : Prop :=
  token ≠ forceIncludeArg
  ∧ ∀ c r, c = "-"%char ∨ c = "/"%char →
      token ≠ String c (String "D" r) ∧ token ≠ String c (String "I" r).

(** A provider over two folders with overlapping include paths. *)
Definition folder_paths (folder : nat) : list string :=
  match folder with
  | O => ["/obj/dist/include"; "/usr/include"]
  | _ => ["/usr/include"; "/src/xpcom"]
  end.

(** ** Trimmed text and lines, in the specification's words *)

(** [s] consists of white space only. *)
Fixpoint blank (s : string) : bool :=
  match s with
  | "" => true
  | String c rest => JS.is_white c && blank rest
  end.

(** The first character of [s] is white space. *)
Definition starts_white (s : string) : bool :=
  match s with
  | "" => false
  | String c _ => JS.is_white c
  end.

(** The last character of [s] is white space. *)
Fixpoint ends_white (s : string) : bool :=
  match s with
  | "" => false
  | String c "" => JS.is_white c
  | String _ rest => ends_white rest
  end.

(** [t] is [s] with its leading and trailing white space removed: [s] is
    [t] between two runs of white space, and [t] neither starts nor ends
    with white space. *)
Definition is_trim (s t : string) : Prop :=
  ∃ lead trail,
    s = lead +:+ t +:+ trail
    ∧ blank lead = true ∧ blank trail = true
    ∧ starts_white t = false ∧ ends_white t = false.

Fixpoint has_line_feed (s : string) : bool :=
  match s with
  | "" => false
  | String c rest => Ascii.eqb c "010" || has_line_feed rest
  end.

(** The lines, put together again with a line feed between them. *)
Fixpoint join_lines (lines : list string) : string :=
  match lines with
  | [] => ""
  | [line] => line
  | line :: lines => line +:+ String "010" (join_lines lines)
  end.

(** [lines] are the lines of [text]: the pieces between its line feeds. *)
Definition is_lines (text : string) (lines : list string) : Prop :=
  lines ≠ []
  ∧ join_lines lines = text
  ∧ Forall (λ line, has_line_feed line = false) lines.

(** [line] starts with [marker], leading white space aside. *)
Definition starts_after_blank (marker line : string) : Prop :=
  ∃ lead rest, line = lead +:+ marker +:+ rest ∧ blank lead = true.

(** The include-path entry of a listing line, by the rule of section 4.4:
    the trimmed line, without the framework marker when it ends with it. *)
Inductive include_entry (line : string) : string → Prop :=
  | include_entry_framework trimmed path :
      is_trim line trimmed →
      trimmed = path +:+ FRAMEWORK_MARKER →
      include_entry line path
  | include_entry_plain trimmed :
      is_trim line trimmed →
      (∀ path, trimmed ≠ path +:+ FRAMEWORK_MARKER) →
      include_entry line trimmed.

(** One line of the two-state scan, by the rules of section 4.4. *)
Inductive scan_rule (line : string)
  : listing * CompileConfig → listing * CompileConfig → Prop :=
  | rule_entry config rest path :
      line = String " " rest →
      include_entry line path →
      scan_rule line (Inside, config) (Inside, add_include path config)
  | rule_exit config next :
      (∀ rest, line ≠ String " " rest) →
      scan_rule line (Outside, config) next →
      scan_rule line (Inside, config) next
  | rule_header config rest :
      line = "#include " +:+ rest →
      scan_rule line (Outside, config) (Inside, config)
  | rule_define config rest trimmed :
      line = "#define " +:+ rest →
      is_trim rest trimmed →
      scan_rule line (Outside, config)
        (Outside, set_define (buildDefine trimmed " ") config)
  | rule_other config :
      (∀ rest, line ≠ "#include " +:+ rest) →
      (∀ rest, line ≠ "#define " +:+ rest) →
      scan_rule line (Outside, config) (Outside, config).

(** The scan over a sequence of lines. *)
Inductive scan_rules
  : list string → listing * CompileConfig → listing * CompileConfig → Prop :=
  | rules_done state : scan_rules [] state state
  | rules_next line lines state state' state'' :
      scan_rule line state state' →
      scan_rules lines state' state'' →
      scan_rules (line :: lines) state state''.

(** ** Properties of the string primitives *)

Section StringFacts.

Lemma string_length_app (a b : string) :
  String.length (a +:+ b) = (String.length a + String.length b)%nat.
Proof. induction a as [|c a IH]; simpl; [done | by rewrite IH]. Qed.

Lemma string_app_assoc (a b c : string) :
  a +:+ (b +:+ c) = (a +:+ b) +:+ c.
Proof. induction a as [|x a IH]; simpl; [done | by rewrite IH]. Qed.

Lemma substring_all (s : string) :
  String.substring 0 (String.length s) s = s.
Proof. induction s as [|c s IH]; simpl; [done | by rewrite IH]. Qed.

Lemma substring_take_app (a b : string) :
  String.substring 0 (String.length a) (a +:+ b) = a.
Proof.
  induction a as [|c a IH]; simpl.
  - by destruct b.
  - by rewrite IH.
Qed.

Lemma substring_drop_app (a b : string) :
  String.substring (String.length a) (String.length b) (a +:+ b) = b.
Proof. induction a as [|c a IH]; simpl; [apply substring_all | done]. Qed.

Lemma occurs_cons (ch c : ascii) (s : string) :
  occurs ch (String c s) ↔ ch = c ∨ occurs ch s.
Proof. done. Qed.

Lemma occurs_empty (ch : ascii) : ¬ occurs ch "".
Proof. by intros []. Qed.

Lemma prefix_single (ch : ascii) (s : string) :
  String.prefix (String ch "") s = true ↔ ∃ rest, s = String ch rest.
Proof.
  destruct s as [|c s]; simpl.
  - split; [done | by intros [? ?]].
  - destruct (ascii_dec ch c) as [->|Hne].
    + split; [by exists s | by destruct s].
    + split; [done | intros [? ?]; congruence].
Qed.

(** [indexOf] finds the first occurrence of a character. *)
Lemma indexOf_go_first (ch : ascii) (before after : string) (i : Z) :
  ¬ occurs ch before →
  JS.indexOf_go (before +:+ String ch after) (String ch "") i
  = i + JS.length before.
Proof.
  revert i. induction before as [|c before IH]; intros i Hno.
  - simpl. destruct (ascii_dec ch ch); [|done].
    destruct after; unfold JS.length; simpl; lia.
  - assert (ch ≠ c) by (intros ->; apply Hno, occurs_cons; by left).
    assert (¬ occurs ch before)
      by (intros ?; apply Hno, occurs_cons; by right).
    simpl. destruct (ascii_dec ch c); [done|].
    rewrite IH by done. unfold JS.length. simpl. lia.
Qed.

Lemma indexOf_go_absent (ch : ascii) (s : string) (i : Z) :
  ¬ occurs ch s → JS.indexOf_go s (String ch "") i = -1.
Proof.
  revert i. induction s as [|c s IH]; intros i Hno; simpl; [done|].
  assert (ch ≠ c) by (intros ->; apply Hno, occurs_cons; by left).
  destruct (ascii_dec ch c); [done|].
  apply IH. intros ?. apply Hno, occurs_cons. by right.
Qed.

Lemma JS_substring_prefix (a b : string) :
  JS.substring (a +:+ b) 0 (JS.length a) = a.
Proof.
  unfold JS.substring, JS.clamp, JS.length. rewrite string_length_app.
  replace (Z.to_nat (Z.min (Z.max 0 0) _)) with 0%nat by lia.
  replace (Z.to_nat (Z.min (Z.max (Z.of_nat (String.length a)) 0) _))
    with (String.length a) by lia.
  rewrite Nat.min_0_l, Nat.max_0_l, Nat.sub_0_r.
  apply substring_take_app.
Qed.

Lemma JS_substring_from_suffix (a b : string) :
  JS.substring_from (a +:+ b) (JS.length a) = b.
Proof.
  unfold JS.substring_from, JS.substring, JS.clamp, JS.length.
  rewrite string_length_app.
  replace (Z.to_nat (Z.min (Z.max (Z.of_nat (String.length a)) 0) _))
    with (String.length a) by lia.
  replace (Z.to_nat (Z.min (Z.max (Z.of_nat (String.length a + String.length b)) 0) _))
    with (String.length a + String.length b)%nat by lia.
  rewrite Nat.min_l, Nat.max_r by lia.
  replace (String.length a + String.length b - String.length a)%nat
    with (String.length b) by lia.
  apply substring_drop_app.
Qed.

End StringFacts.

(** ** Define construction *)

Lemma buildDefine_found (text before after : string) (ch : ascii) :
  text = before +:+ String ch after →
  ¬ occurs ch before →
  buildDefine text (String ch "") = {| key := before; value := after |}.
Proof.
  intros -> Hno. unfold buildDefine, JS.indexOf.
  rewrite indexOf_go_first by done.
  replace (0 <=? 0 + JS.length before) with true
    by (unfold JS.length; symmetry; apply Z.leb_le; lia).
  rewrite Z.add_0_l. f_equal.
  - apply JS_substring_prefix.
  - change (before +:+ String ch after)
      with (before +:+ (String ch "" +:+ after)).
    rewrite string_app_assoc.
    replace (JS.length before + 1) with (JS.length (before +:+ String ch ""))
      by (unfold JS.length; rewrite string_length_app; simpl; lia).
    apply JS_substring_from_suffix.
Qed.

Lemma buildDefine_absent (text : string) (ch : ascii) :
  ¬ occurs ch text →
  buildDefine text (String ch "") = {| key := text; value := "1" |}.
Proof.
  intros Hno. unfold buildDefine, JS.indexOf.
  by rewrite indexOf_go_absent.
Qed.

(** C5. For every text and one-character splitter, [buildDefine] cuts the
    text at the first occurrence of the splitter (key before it, value after
    it), and returns the whole text with the value "1" when the splitter does
    not occur; so "FOO=1" and "FOO" both give key "FOO" and value "1". *)
Theorem buildDefine_spec (text : string) (ch : ascii) :
  (∀ before after,
      text = before +:+ String ch after → ¬ occurs ch before →
      buildDefine text (String ch "") = {| key := before; value := after |})
  ∧ (¬ occurs ch text →
      buildDefine text (String ch "") = {| key := text; value := "1" |})
  ∧ buildDefine "FOO=1" "=" = {| key := "FOO"; value := "1" |}
  ∧ buildDefine "FOO" "=" = {| key := "FOO"; value := "1" |}.
Proof.
  split; [|split; [|split]].
  - intros before after. apply buildDefine_found.
  - apply buildDefine_absent.
  - reflexivity.
  - reflexivity.
Qed.

Lemma buildDefine_spec_witness :
  buildDefine "__VERSION__ 7" " " = {| key := "__VERSION__"; value := "7" |}
  ∧ buildDefine "NDEBUG" "=" = {| key := "NDEBUG"; value := "1" |}.
Proof.
  split.
  - apply (proj1 (buildDefine_spec "__VERSION__ 7" " ") "__VERSION__" "7").
    + reflexivity.
    + simpl. intuition discriminate.
  - apply (proj1 (proj2 (buildDefine_spec "NDEBUG" "="))).
    simpl. intuition discriminate.
Defined.

(** ** The override loop *)

Section OverrideLoop.

Variable flag : string.

(** The big-step loop unfolds into one iteration followed by the loop. *)
Lemma process_args_step (args : list string) (config : CompileConfig) :
  process_args flag args config =
  match loop_step flag (args, config) with
  | None => config
  | Some (args', config') => process_args flag args' config'
  end.
Proof.
  destruct args as [|arg args]; simpl; [done|].
  repeat (case_match; try done).
Qed.

(** Which tokens an iteration consumes, and which update it performs, does
    not depend on the configuration. *)
Lemma loop_step_uniform (args : list string) :
  (∀ config, loop_step flag (args, config) = None)
  ∨ ∃ args' u,
      (length args' < length args)%nat
      ∧ ∀ config,
          loop_step flag (args, config) = Some (args', apply_update u config).
Proof.
  destruct args as [|arg args]; [by left|].
  unfold loop_step.
  destruct (negb (JS.truthy (Some arg))); [by left|right].
  destruct (_ || _).
  { exists args, Keep. split; [simpl; lia | done]. }
  destruct (String.eqb (JS.charAt arg 1) "D").
  { eexists args, (SetDefine _). split; [simpl; lia | done]. }
  destruct (String.eqb (JS.charAt arg 1) "I").
  { eexists args, (AddInclude _). split; [simpl; lia | done]. }
  destruct (String.eqb arg flag).
  - destruct args as [|include args].
    + exists [], Keep. split; [simpl; lia | done].
    + destruct (JS.truthy (Some include)).
      * exists args, (AddForcedInclude include). split; [simpl; lia | done].
      * exists args, Keep. split; [simpl; lia | done].
  - exists args, Keep. split; [simpl; lia | done].
Qed.

Lemma loop_steps_process_args (n : nat) (args args' : list string)
    (config config' : CompileConfig) :
  loop_steps flag n (args, config) = Some (args', config') →
  process_args flag args config = process_args flag args' config'.
Proof.
  revert args config. induction n as [|n IH]; intros args config;
    cbn [loop_steps].
  - by intros [= -> ->].
  - rewrite (process_args_step args).
    destruct (loop_step flag (args, config)) as [[args1 config1]|]; [|done].
    apply IH.
Qed.

(** Two runs over the same tokens stay related by any relation that the
    three container updates preserve. *)
Lemma process_args_sim (R : CompileConfig → CompileConfig → Prop) :
  (∀ u x y, R x y → R (apply_update u x) (apply_update u y)) →
  ∀ args x y,
    R x y → R (process_args flag args x) (process_args flag args y).
Proof.
  intros Hupd args.
  induction args as [args IH] using (induction_ltof1 _ (@length string)).
  unfold ltof in IH.
  intros x y HR. rewrite (process_args_step args x), (process_args_step args y).
  destruct (loop_step_uniform args) as [Hnone|(args' & u & Hlt & Hsome)].
  - by rewrite !Hnone.
  - rewrite !Hsome. apply IH; [exact Hlt | by apply Hupd].
Qed.

Lemma process_args_invariant (Q : CompileConfig → Prop) :
  (∀ u x, Q x → Q (apply_update u x)) →
  ∀ args x, Q x → Q (process_args flag args x).
Proof.
  intros Hupd args x HQ.
  apply (process_args_sim (λ _ y, Q y)) with (x := x); [|done].
  intros u ? y. apply Hupd.
Qed.

End OverrideLoop.

Lemma grows_update (u : update) (before x : CompileConfig) :
  grows before x → grows before (apply_update u x).
Proof.
  intros (Hi & Hd & Hf & Hm & Hs).
  destruct u; simpl; unfold grows; simpl; try done.
  - rewrite dom_insert. repeat split; try done. set_solver.
  - repeat split; try done. set_solver.
  - repeat split; try done. set_solver.
Qed.

Lemma process_args_grows (flag : string) (args : list string)
    (config : CompileConfig) :
  grows config (process_args flag args config).
Proof.
  apply process_args_invariant.
  - intros u x. apply grows_update.
  - unfold grows. done.
Qed.

Lemma CompileConfig_eq (x y : CompileConfig) :
  includes x = includes y →
  defines x = defines y →
  forcedIncludes x = forcedIncludes y →
  intelliSenseMode x = intelliSenseMode y →
  standard x = standard y →
  x = y.
Proof. destruct x, y; simpl; by intros -> -> -> -> ->. Qed.

Lemma process_args_idempotent (flag : string) (args : list string)
    (config : CompileConfig) :
  process_args flag args (process_args flag args config)
  = process_args flag args config.
Proof.
  pose proof (process_args_grows flag args config) as (Hgi & _ & Hgf & _ & _).
  remember (process_args flag args config) as once eqn:Honce.
  pose (R := λ x y : CompileConfig,
    includes y = includes x ∪ includes once
    ∧ forcedIncludes y = forcedIncludes x ∪ forcedIncludes once
    ∧ (∀ k, defines y !! k = defines x !! k ∨ defines y !! k = defines once !! k)
    ∧ intelliSenseMode y = intelliSenseMode once
    ∧ standard y = standard once).
  assert (Hend : R once (process_args flag args once)).
  { rewrite Honce at 1. apply process_args_sim.
    - intros u x y (Hi & Hf & Hd & Hm & Hs).
      destruct u; unfold R; simpl; repeat split; try done.
      + intros k. destruct (decide (key define = k)) as [<-|Hne].
        * left. by rewrite !lookup_insert_eq.
        * rewrite !lookup_insert_ne by done. apply Hd.
      + by rewrite Hi, (assoc_L (∪)).
      + by rewrite Hf, (assoc_L (∪)).
    - unfold R. repeat split; try done.
      + symmetry. by apply subseteq_union_1_L.
      + symmetry. by apply subseteq_union_1_L.
      + by right. }
  destruct Hend as (Hi & Hf & Hd & Hm & Hs).
  apply CompileConfig_eq; try done.
  - by rewrite Hi, (idemp_L (∪)).
  - apply map_eq. intros k. by destruct (Hd k).
  - by rewrite Hf, (idemp_L (∪)).
Qed.

(** C9. A call of [addCompilerArgumentsToConfig] only grows the
    configuration: every include, every define key and every forced include
    it held is still there afterwards, and [intelliSenseMode] and [standard]
    are what they were. *)
Theorem addCompilerArgumentsToConfig_grows
    (splitCmdLine : string → list string) (cmdLine : option string)
    (forceIncludeArg : string) (config : CompileConfig) :
  let result :=
    addCompilerArgumentsToConfig splitCmdLine cmdLine forceIncludeArg config in
  includes config ⊆ includes result
  ∧ dom (defines config) ⊆ dom (defines result)
  ∧ forcedIncludes config ⊆ forcedIncludes result
  ∧ intelliSenseMode result = intelliSenseMode config
  ∧ standard result = standard config.
Proof.
  unfold addCompilerArgumentsToConfig.
  destruct (negb (JS.truthy cmdLine)); [done|].
  apply process_args_grows.
Qed.

(** A define key that is kept may get a new value: the map grows in its
    keys, not in its entries. *)
Lemma addCompilerArgumentsToConfig_overwrites :
  let config := set_define {| key := "FOO"; value := "1" |} no_overrides in
  let result :=
    addCompilerArgumentsToConfig Tokenizer.splitCmdLine (Some "-DFOO=2")
      "-include" config in
  defines config !! "FOO" = Some {| key := "FOO"; value := "1" |}
  ∧ defines result !! "FOO" = Some {| key := "FOO"; value := "2" |}.
Proof. vm_compute. done. Qed.

(** C10. [addCompilerArgumentsToConfig] is idempotent: a second call with the
    same command line and forced-include flag leaves the configuration the
    first call produced as it is. *)
Theorem addCompilerArgumentsToConfig_idempotent
    (splitCmdLine : string → list string) (cmdLine : option string)
    (forceIncludeArg : string) (config : CompileConfig) :
  addCompilerArgumentsToConfig splitCmdLine cmdLine forceIncludeArg
    (addCompilerArgumentsToConfig splitCmdLine cmdLine forceIncludeArg config)
  = addCompilerArgumentsToConfig splitCmdLine cmdLine forceIncludeArg config.
Proof.
  unfold addCompilerArgumentsToConfig.
  destruct (negb (JS.truthy cmdLine)); [done|].
  apply process_args_idempotent.
Qed.

(** ** The override loop against the rules of section 4.3 *)

#[local] Arguments JS.length : simpl never.
#[local] Arguments JS.charAt : simpl never.
#[local] Arguments JS.substring_from : simpl never.

Lemma JS_length_two_or_more (c0 c1 : ascii) (r : string) :
  (JS.length (String c0 (String c1 r)) <? 2) = false.
Proof. apply Z.ltb_ge. unfold JS.length. simpl String.length. lia. Qed.

Lemma JS_substring_from_two (c0 c1 : ascii) (r : string) :
  JS.substring_from (String c0 (String c1 r)) 2 = r.
Proof. apply (JS_substring_from_suffix (String c0 (String c1 "")) r). Qed.

Lemma String_eqb_single (a b : ascii) :
  String.eqb (String a "") (String b "") = Ascii.eqb a b.
Proof. simpl. by destruct (Ascii.eqb a b). Qed.

Lemma String_eqb_decide (a b : string) :
  String.eqb a b = bool_decide (a = b).
Proof.
  destruct (String.eqb_spec a b).
  - by rewrite bool_decide_eq_true_2.
  - by rewrite bool_decide_eq_false_2.
Qed.

(** On a queue without empty tokens the loop applies the rules of section
    4.3, token by token. *)
Lemma process_args_apply_overrides (flag : string) (tokens : list string) :
  Forall (λ token, token ≠ "") tokens →
  ∀ config,
    process_args flag tokens config = apply_overrides flag tokens config.
Proof.
  induction tokens as [tokens IH] using (induction_ltof1 _ (@length string)).
  unfold ltof in IH. intros Hne config.
  destruct tokens as [|token rest]; [done|].
  apply Forall_cons in Hne as [Htoken Hrest].
  destruct token as [|c0 [|c1 r]]; [done| |].
  - (* a single character *)
    simpl. apply IH; [simpl; lia | done].
  - cbn [process_args apply_overrides JS.truthy negb classify].
    rewrite JS_length_two_or_more, JS_substring_from_two.
    change (JS.charAt (String c0 (String c1 r)) 0) with (String c0 "").
    change (JS.charAt (String c0 (String c1 r)) 1) with (String c1 "").
    rewrite !String_eqb_single, String_eqb_decide. simpl orb.
    destruct (Ascii.eqb c0 "-"), (Ascii.eqb c0 "/"); simpl;
      try (apply IH; [simpl; lia | done]);
      (destruct (Ascii.eqb c1 "D"); [apply IH; [simpl; lia | done]|]);
      (destruct (Ascii.eqb c1 "I"); [apply IH; [simpl; lia | done]|]);
      (case_bool_decide; [|apply IH; [simpl; lia | done]]);
      (destruct rest as [|include rest']; [done|]);
      apply Forall_cons in Hrest as [Hinclude Hrest'];
      (destruct include; [done|]); simpl;
      (apply IH; [simpl; lia | done]).
Qed.

(** The example of the specification: the three overrides of
    "-DFOO=bar -Ipath/to/inc -include force.h". *)
Lemma addCompilerArgumentsToConfig_example
    (splitCmdLine : string → list string) (config : CompileConfig) :
  splitCmdLine "-DFOO=bar -Ipath/to/inc -include force.h"
    = ["-DFOO=bar"; "-Ipath/to/inc"; "-include"; "force.h"] →
  let result :=
    addCompilerArgumentsToConfig splitCmdLine
      (Some "-DFOO=bar -Ipath/to/inc -include force.h") "-include" config in
  defines result !! "FOO" = Some {| key := "FOO"; value := "bar" |}
  ∧ "path/to/inc" ∈ includes result
  ∧ "force.h" ∈ forcedIncludes result.
Proof.
  intros Htokens. unfold addCompilerArgumentsToConfig.
  cbn [JS.truthy negb from_option id]. rewrite Htokens.
  rewrite process_args_apply_overrides
    by (repeat constructor; discriminate).
  change (apply_overrides "-include" _ config)
    with (add_forcedInclude "force.h"
            (add_include "path/to/inc"
               (set_define {| key := "FOO"; value := "bar" |} config))).
  simpl. split; [|split].
  - apply lookup_insert_eq.
  - set_solver.
  - set_solver.
Qed.

(** C2. An empty token ends the loop of [addCompilerArgumentsToConfig],
    whatever follows it.  For the command line [-DA=1 '' -DB=2] the tokens
    are "-DA=1", the empty token and "-DB=2": the call defines A and stops,
    leaving B undefined, whereas the rules of section 4.3 skip the empty
    token, as they skip every token shorter than two characters, and
    define B. *)
Theorem addCompilerArgumentsToConfig_stops_at_empty_token :
  let cmdLine := "-DA=1 '' -DB=2" in
  let result :=
    addCompilerArgumentsToConfig Tokenizer.splitCmdLine (Some cmdLine)
      "-include" no_overrides in
  (∀ flag rest config, process_args flag ("" :: rest) config = config)
  ∧ Tokenizer.splitCmdLine cmdLine = ["-DA=1"; ""; "-DB=2"]
  ∧ defines result !! "A" = Some {| key := "A"; value := "1" |}
  ∧ defines result !! "B" = None
  ∧ defines (apply_overrides "-include" (Tokenizer.splitCmdLine cmdLine)
               no_overrides) !! "B"
    = Some {| key := "B"; value := "2" |}.
Proof. split; [done|]. vm_compute. done. Qed.

(** ** The dangling forced-include flag *)

Lemma process_args_dangling (flag : string) (config : CompileConfig) :
  forcedIncludes (process_args flag [flag] config) = forcedIncludes config.
Proof.
  cbn [process_args].
  repeat (case_match; try done).
Qed.

(** C8, as stated, fails: in "-include -include" the last token is the
    forced-include flag and nothing follows it, yet the call inserts it into
    [forcedIncludes], as the path of the flag before it. *)
Lemma dangling_flag_counterexample :
  let cmdLine := "-include -include" in
  let result :=
    addCompilerArgumentsToConfig Tokenizer.splitCmdLine (Some cmdLine)
      "-include" no_overrides in
  last (Tokenizer.splitCmdLine cmdLine) = Some "-include"
  ∧ forcedIncludes no_overrides = ∅
  ∧ forcedIncludes result = {["-include"]}
  ∧ ¬ (forcedIncludes result = forcedIncludes no_overrides).
Proof. vm_compute. repeat split. discriminate. Qed.

(** C8 (amended). When the loop reaches the forced-include flag as its
    current token with no token left after it, the call ends without
    inserting anything into [forcedIncludes]; and when the command line is
    absent or empty the call returns the configuration unchanged. *)
Theorem addCompilerArgumentsToConfig_dangling_flag
    (splitCmdLine : string → list string) (forceIncludeArg : string)
    (config : CompileConfig) :
  (∀ cmdLine n reached,
      JS.truthy (Some cmdLine) = true →
      loop_steps forceIncludeArg n (splitCmdLine cmdLine, config)
        = Some ([forceIncludeArg], reached) →
      forcedIncludes
        (addCompilerArgumentsToConfig splitCmdLine (Some cmdLine)
           forceIncludeArg config)
      = forcedIncludes reached)
  ∧ addCompilerArgumentsToConfig splitCmdLine None forceIncludeArg config
    = config
  ∧ addCompilerArgumentsToConfig splitCmdLine (Some "") forceIncludeArg config
    = config.
Proof.
  split; [|done].
  intros cmdLine n reached Htruthy Hreach.
  unfold addCompilerArgumentsToConfig. rewrite Htruthy. cbn [negb from_option id].
  rewrite (loop_steps_process_args _ _ _ _ _ _ Hreach).
  apply process_args_dangling.
Qed.

Lemma addCompilerArgumentsToConfig_dangling_flag_witness :
  forcedIncludes
    (addCompilerArgumentsToConfig Tokenizer.splitCmdLine
       (Some "-Ifoo -include") "-include" no_overrides)
  = forcedIncludes (add_include "foo" no_overrides).
Proof.
  apply (proj1 (addCompilerArgumentsToConfig_dangling_flag
                  Tokenizer.splitCmdLine "-include" no_overrides)
           "-Ifoo -include" 1%nat (add_include "foo" no_overrides)).
  - reflexivity.
  - vm_compute. reflexivity.
Defined.

(** ** The diagnostic parser as a two-state scan *)

Lemma prefix_app (p s : string) :
  String.prefix p s = true ↔ ∃ rest, s = p +:+ rest.
Proof.
  revert s. induction p as [|c p IH]; intros s.
  - split; [intros _; by exists s | by destruct s].
  - destruct s as [|c' s]; simpl.
    + split; [done | by intros [? ?]].
    + destruct (ascii_dec c c') as [->|Hne].
      * rewrite IH. split; intros [rest Heq]; exists rest; congruence.
      * split; [done | intros [? ?]; congruence].
Qed.

Lemma charAt_space (line : string) :
  String.eqb (JS.charAt line 0) " " = true ↔ ∃ rest, line = String " " rest.
Proof.
  destruct line as [|c line].
  - split; [done | by intros [? ?]].
  - change (JS.charAt (String c line) 0) with (String c "").
    rewrite String_eqb_single. split.
    + intros ->%Ascii.eqb_eq. by exists line.
    + intros [rest [= -> _]]. apply Ascii.eqb_refl.
Qed.

Lemma string_app_cancel_r (a b m : string) :
  a +:+ m = b +:+ m → a = b.
Proof.
  revert b. induction a as [|x a IH]; intros [|y b] Heq; simpl in Heq.
  - done.
  - apply (f_equal String.length) in Heq. simpl in Heq.
    rewrite string_length_app in Heq. lia.
  - apply (f_equal String.length) in Heq. simpl in Heq.
    rewrite string_length_app in Heq. lia.
  - injection Heq as -> Heq. f_equal. by apply IH.
Qed.

Lemma substring_split (s : string) (k : nat) :
  (k ≤ String.length s)%nat →
  s = String.substring 0 k s +:+ String.substring k (String.length s - k) s.
Proof.
  revert k. induction s as [|c s IH]; intros [|k] Hk; simpl in *.
  - done.
  - lia.
  - by rewrite substring_all.
  - f_equal. apply IH. lia.
Qed.

Lemma endsWith_app (s suffix : string) :
  JS.endsWith s suffix = true ↔ ∃ p, s = p +:+ suffix.
Proof.
  unfold JS.endsWith. split.
  - destruct (Nat.leb_spec (String.length suffix) (String.length s)) as [Hle|];
      [|done].
    intros Heq%String.eqb_eq.
    exists (String.substring 0 (String.length s - String.length suffix) s).
    pose proof (substring_split s (String.length s - String.length suffix))
      as Hsplit.
    replace (String.length s - (String.length s - String.length suffix))%nat
      with (String.length suffix) in Hsplit by lia.
    rewrite Heq in Hsplit. apply Hsplit. lia.
  - intros [p ->]. rewrite string_length_app.
    destruct (Nat.leb_spec (String.length suffix)
                (String.length p + String.length suffix)) as [_|]; [|lia].
    replace (String.length p + String.length suffix - String.length suffix)%nat
      with (String.length p) by lia.
    rewrite substring_drop_app. apply String.eqb_refl.
Qed.

Lemma JS_substring_strip (p suffix : string) :
  JS.substring (p +:+ suffix) 0 (JS.length (p +:+ suffix) - JS.length suffix)
  = p.
Proof.
  replace (JS.length (p +:+ suffix) - JS.length suffix) with (JS.length p)
    by (unfold JS.length; rewrite string_length_app; lia).
  apply JS_substring_prefix.
Qed.

Lemma entry_of_deterministic (line p1 p2 : string) :
  entry_of line p1 → entry_of line p2 → p1 = p2.
Proof.
  intros [p1' H1|H1] [p2' H2|H2].
  - rewrite H1 in H2. by apply string_app_cancel_r in H2.
  - by destruct (H2 p1').
  - by destruct (H1 p2').
  - done.
Qed.

(** The scan admits at most one next state for a line. *)
Lemma scan_line_deterministic (line : string)
    (state next1 next2 : listing * CompileConfig) :
  scan_line line state next1 → scan_line line state next2 → next1 = next2.
Proof.
  intros H1. revert next2.
  induction H1 as [config rest path Hline Hpath
                  |config next Hline H1 IH
                  |config rest Hline
                  |config rest Hline
                  |config Hinc Hdef];
    intros next2 H2; inversion H2; subst; clear H2.
  - do 2 f_equal. eapply entry_of_deterministic; eauto.
  - by edestruct H0.
  - by edestruct Hline.
  - by apply IH.
  - done.
  - simpl in *. discriminate.
  - by edestruct H0.
  - simpl in *. discriminate.
  - match goal with H : _ +:+ _ = _ +:+ _ |- _ =>
      apply (inj (String.app _)) in H; by subst end.
  - by edestruct H1.
  - by edestruct Hinc.
  - by edestruct Hdef.
  - done.
Qed.

(** The loop body takes the step the scan prescribes. *)
Lemma parse_line_scan (inIncludes : bool) (config : CompileConfig)
    (line : string) :
  scan_line line (listing_of inIncludes, config)
    (listing_of (parse_line (inIncludes, config) line).1,
     (parse_line (inIncludes, config) line).2).
Proof.
  assert (Houtside :
    scan_line line (Outside, config)
      (listing_of
         (if JS.startsWith line "#include " then (true, config)
          else if JS.startsWith line "#define " then
            (false, set_define
                  (buildDefine (JS.trim (JS.substring_from line 8)) " ") config)
          else (false, config)).1,
       (if JS.startsWith line "#include " then (true, config)
        else if JS.startsWith line "#define " then
          (false, set_define
                (buildDefine (JS.trim (JS.substring_from line 8)) " ") config)
        else (false, config)).2)).
  { unfold JS.startsWith.
    destruct (String.prefix "#include " line) eqn:Hinc.
    { apply prefix_app in Hinc as [rest ->]. by eapply scan_header. }
    destruct (String.prefix "#define " line) eqn:Hdef.
    { apply prefix_app in Hdef as [rest ->]. cbn [fst snd listing_of].
      replace (JS.substring_from ("#define " +:+ rest) 8) with rest
        by (symmetry; apply (JS_substring_from_suffix "#define " rest)).
      by eapply scan_define. }
    apply scan_other.
    - intros rest Heq.
      assert (String.prefix "#include " line = true)
        by (apply prefix_app; eauto).
      congruence.
    - intros rest Heq.
      assert (String.prefix "#define " line = true)
        by (apply prefix_app; eauto).
      congruence. }
  unfold parse_line. destruct inIncludes; [|exact Houtside].
  destruct (String.eqb (JS.charAt line 0) " ") eqn:Hspace.
  - apply charAt_space in Hspace as [rest Hline].
    destruct (JS.endsWith (JS.trim line) FRAMEWORK_MARKER) eqn:Hmarker.
    + apply endsWith_app in Hmarker as [path Hpath].
      cbn [fst snd listing_of]. rewrite Hpath, JS_substring_strip.
      eapply scan_entry; [exact Hline|]. by eapply entry_framework.
    + cbn [fst snd listing_of].
      eapply scan_entry; [exact Hline|]. apply entry_plain.
      intros path Hpath.
      assert (JS.endsWith (JS.trim line) FRAMEWORK_MARKER = true)
        by (apply endsWith_app; eauto).
      congruence.
  - apply scan_exit; [|exact Houtside].
    intros rest Hline.
    assert (String.eqb (JS.charAt line 0) " " = true)
      by (apply charAt_space; eauto).
    congruence.
Qed.

Lemma foldl_parse_line_scan (lines : list string) (inIncludes : bool)
    (config : CompileConfig) :
  scan_lines lines (listing_of inIncludes, config)
    (listing_of (foldl parse_line (inIncludes, config) lines).1,
     (foldl parse_line (inIncludes, config) lines).2).
Proof.
  revert inIncludes config.
  induction lines as [|line lines IH]; intros inIncludes config;
    cbn [foldl].
  - constructor.
  - eapply scan_next; [apply parse_line_scan|].
    destruct (parse_line (inIncludes, config) line) as [b c]. apply IH.
Qed.

Lemma scan_lines_deterministic (lines : list string)
    (state final1 final2 : listing * CompileConfig) :
  scan_lines lines state final1 → scan_lines lines state final2 →
  final1 = final2.
Proof.
  intros H1. revert final2.
  induction H1 as [state|line lines state state' state'' Hstep _ IH];
    intros final2 H2; inversion H2; subst; [done|].
  apply IH.
  match goal with H : scan_line line state ?s |- _ =>
    by rewrite (scan_line_deterministic _ _ _ _ Hstep H) end.
Qed.

(** *** Trimming, declaratively *)

Lemma blank_app (a b : string) : blank (a +:+ b) = blank a && blank b.
Proof.
  induction a as [|c a IH]; simpl; [done|].
  by rewrite IH, andb_assoc.
Qed.

Lemma blank_starts_white (t : string) :
  t ≠ "" → blank t = true → starts_white t = true.
Proof. destruct t as [|c t]; [done|]. simpl. by intros _ [? _]%andb_true_iff. Qed.

Lemma starts_white_app (t r : string) :
  t ≠ "" → starts_white (t +:+ r) = starts_white t.
Proof. by destruct t. Qed.

Lemma ends_white_cons (c : ascii) (t : string) :
  t ≠ "" → ends_white (String c t) = ends_white t.
Proof. by destruct t. Qed.

Lemma blank_not_ends_white (t : string) :
  blank t = true → ends_white t = false → t = "".
Proof.
  induction t as [|c t IH]; [done|].
  intros [Hc Ht]%andb_true_iff Hends.
  destruct t as [|d t]; [simpl in Hends; congruence|].
  rewrite ends_white_cons in Hends by done.
  by specialize (IH Ht Hends).
Qed.

Lemma trimStart_decompose (s : string) :
  ∃ lead, s = lead +:+ JS.trimStart s ∧ blank lead = true.
Proof.
  induction s as [|c s (lead & Heq & Hblank)]; [by exists ""|].
  cbn [JS.trimStart]. destruct (JS.is_white c) eqn:Hc.
  - exists (String c lead). simpl. rewrite <- Heq, Hc. done.
  - by exists "".
Qed.

Lemma trimStart_starts (s : string) : starts_white (JS.trimStart s) = false.
Proof.
  induction s as [|c s IH]; [done|].
  cbn [JS.trimStart]. by destruct (JS.is_white c) eqn:Hc.
Qed.

Lemma trimEnd_decompose (s : string) :
  ∃ trail, s = JS.trimEnd s +:+ trail ∧ blank trail = true.
Proof.
  induction s as [|c s (trail & Heq & Hblank)]; [by exists ""|].
  cbn [JS.trimEnd]. destruct (JS.trimEnd s) as [|d r] eqn:Hend.
  - simpl in Heq. subst trail. destruct (JS.is_white c) eqn:Hc.
    + exists (String c s). simpl. by rewrite Hc, Hblank.
    + by exists s.
  - exists trail. simpl. by rewrite Heq at 1.
Qed.

Lemma trimEnd_ends (s : string) : ends_white (JS.trimEnd s) = false.
Proof.
  induction s as [|c s IH]; [done|].
  cbn [JS.trimEnd]. destruct (JS.trimEnd s) as [|d r] eqn:Hend.
  - by destruct (JS.is_white c) eqn:Hc.
  - by rewrite ends_white_cons.
Qed.

Lemma trimEnd_starts (s : string) :
  starts_white s = false → starts_white (JS.trimEnd s) = false.
Proof.
  destruct s as [|c s]; [done|]. simpl. intros Hc.
  destruct (JS.trimEnd s); by rewrite ?Hc.
Qed.

(** [JS.trim] removes the leading and trailing white space. *)
Lemma trim_is_trim (s : string) : is_trim s (JS.trim s).
Proof.
  destruct (trimStart_decompose s) as (lead & Hlead & Hblank).
  destruct (trimEnd_decompose (JS.trimStart s)) as (trail & Htrail & Hblank').
  exists lead, trail. unfold JS.trim. split; [|split; [|split; [|split]]].
  - by rewrite <- Htrail.
  - done.
  - done.
  - apply trimEnd_starts, trimStart_starts.
  - apply trimEnd_ends.
Qed.

Lemma blank_prefix_unique (l1 l2 x1 x2 : string) :
  blank l1 = true → blank l2 = true →
  starts_white x1 = false → starts_white x2 = false →
  l1 +:+ x1 = l2 +:+ x2 → x1 = x2.
Proof.
  revert l2. induction l1 as [|c l1 IH]; intros [|d l2] H1 H2 Hx1 Hx2 Heq;
    simpl in *.
  - done.
  - subst x1. simpl in Hx1. apply andb_true_iff in H2 as [? _]. congruence.
  - subst x2. simpl in Hx2. apply andb_true_iff in H1 as [? _]. congruence.
  - injection Heq as -> Heq.
    apply andb_true_iff in H1 as [_ H1]. apply andb_true_iff in H2 as [_ H2].
    by eapply IH.
Qed.

Lemma blank_suffix_unique (t1 t2 r1 r2 : string) :
  ends_white t1 = false → ends_white t2 = false →
  blank r1 = true → blank r2 = true →
  t1 +:+ r1 = t2 +:+ r2 → t1 = t2.
Proof.
  revert t2. induction t1 as [|c t1 IH]; intros t2 H1 H2 Hr1 Hr2 Heq.
  - simpl in Heq. subst r1. rewrite blank_app in Hr1.
    apply andb_true_iff in Hr1 as [Hblank _].
    symmetry. by apply blank_not_ends_white.
  - destruct t2 as [|d t2].
    + change ("" +:+ r2) with r2 in Heq. subst r2.
      rewrite (blank_app (String c t1)) in Hr2.
      apply andb_true_iff in Hr2 as [Hblank _].
      by apply blank_not_ends_white.
    + simpl in Heq. injection Heq as -> Heq. f_equal.
      apply IH; try done.
      * destruct t1; [done|]. by rewrite ends_white_cons in H1.
      * destruct t2; [done|]. by rewrite ends_white_cons in H2.
Qed.

(** The trimmed text is unique. *)
Lemma is_trim_unique (s t1 t2 : string) :
  is_trim s t1 → is_trim s t2 → t1 = t2.
Proof.
  assert (Hblank : ∀ t t', is_trim s t → is_trim s t' → t = "" → t' = "").
  { intros t t' (l & r & -> & Hl & Hr & _ & _)
      (l' & r' & Heq & _ & _ & Hstart & _) ->.
    destruct t' as [|c t']; [done|]. simpl in Hstart.
    assert (blank (l' +:+ String c t' +:+ r') = true) as Hall.
    { rewrite <- Heq. simpl. by rewrite blank_app, Hl, Hr. }
    rewrite blank_app in Hall. apply andb_true_iff in Hall as [_ Hall].
    simpl in Hall. apply andb_true_iff in Hall as [? _]. congruence. }
  intros H1 H2.
  destruct (decide (t1 = "")) as [->|Hne1].
  { symmetry. exact (Hblank _ _ H1 H2 eq_refl). }
  destruct (decide (t2 = "")) as [->|Hne2].
  { exact (Hblank _ _ H2 H1 eq_refl). }
  destruct H1 as (l1 & r1 & -> & Hl1 & Hr1 & Hs1 & He1).
  destruct H2 as (l2 & r2 & Heq & Hl2 & Hr2 & Hs2 & He2).
  apply blank_prefix_unique in Heq; try done.
  - exact (blank_suffix_unique _ _ _ _ He1 He2 Hr1 Hr2 Heq).
  - by rewrite starts_white_app.
  - by rewrite starts_white_app.
Qed.

Lemma is_trim_iff (s t : string) : is_trim s t ↔ t = JS.trim s.
Proof.
  split.
  - intros Ht. eapply is_trim_unique; [exact Ht | apply trim_is_trim].
  - intros ->. apply trim_is_trim.
Qed.

(** *** Lines, declaratively *)

Lemma split_nonempty (sep : ascii) (s : string) : JS.split sep s ≠ [].
Proof.
  destruct s as [|c s]; [done|]. cbn [JS.split].
  destruct (Ascii.eqb c sep); [done|]. by destruct (JS.split sep s).
Qed.

Lemma split_no_line_feed (line : string) :
  has_line_feed line = false → JS.split "010" line = [line].
Proof.
  induction line as [|c line IH]; [done|].
  cbn [has_line_feed JS.split]. intros [Hc Hline]%orb_false_iff.
  by rewrite Hc, (IH Hline).
Qed.

Lemma split_line_then (line rest : string) :
  has_line_feed line = false →
  JS.split "010" (line +:+ String "010" rest) = line :: JS.split "010" rest.
Proof.
  induction line as [|c line IH]; [done|].
  cbn [has_line_feed]. intros [Hc Hline]%orb_false_iff.
  cbn [String.append JS.split]. by rewrite Hc, (IH Hline).
Qed.

(** The lines of a text are what [split] returns. *)
Lemma is_lines_split (text : string) (lines : list string) :
  is_lines text lines → JS.split "010" text = lines.
Proof.
  intros (Hne & <- & Hlines).
  destruct lines as [|line lines]; [done|]. clear Hne.
  revert line Hlines. induction lines as [|line' lines IH];
    intros line [Hline Hlines]%Forall_cons.
  - by apply split_no_line_feed.
  - change (join_lines (line :: line' :: lines))
      with (line +:+ String "010" (join_lines (line' :: lines))).
    by rewrite split_line_then, IH.
Qed.

Lemma split_is_lines (text : string) : is_lines text (JS.split "010" text).
Proof.
  split; [apply split_nonempty|].
  induction text as [|c text [IHjoin IHfeed]]; [by repeat constructor|].
  cbn [JS.split]. destruct (Ascii.eqb c "010") eqn:Hc.
  - apply Ascii.eqb_eq in Hc as ->. split; [|by constructor].
    pose proof (split_nonempty "010" text).
    destruct (JS.split "010" text); [done|].
    cbn [join_lines]. simpl. by rewrite <- IHjoin.
  - pose proof (split_nonempty "010" text).
    destruct (JS.split "010" text) as [|piece pieces]; [done|].
    apply Forall_cons in IHfeed as [Hpiece Hpieces]. split.
    + destruct pieces; simpl in *; by rewrite <- IHjoin.
    + constructor; [|done]. cbn [has_line_feed]. by rewrite Hc.
Qed.

(** *** The rules of section 4.4 and the loop body *)

Lemma include_entry_iff (line path : string) :
  include_entry line path ↔ entry_of line path.
Proof.
  split.
  - intros [trimmed path' ->%is_trim_iff Hmarker|trimmed ->%is_trim_iff Hplain].
    + by apply entry_framework.
    + by apply entry_plain.
  - intros [path' Hmarker|Hplain].
    + eapply include_entry_framework; [apply trim_is_trim | done].
    + apply include_entry_plain; [apply trim_is_trim | done].
Qed.

Lemma scan_rule_iff (line : string) (state next : listing * CompileConfig) :
  scan_rule line state next ↔ scan_line line state next.
Proof.
  split.
  - induction 1 as [config rest path Hline Hentry| | |
                    config rest trimmed Hline ->%is_trim_iff|].
    + eapply scan_entry; [done | by apply include_entry_iff].
    + by apply scan_exit.
    + by eapply scan_header.
    + by eapply scan_define.
    + by apply scan_other.
  - induction 1 as [config rest path Hline Hentry| | | |].
    + eapply rule_entry; [done | by apply include_entry_iff].
    + by apply rule_exit.
    + by eapply rule_header.
    + eapply rule_define; [done | apply trim_is_trim].
    + by apply rule_other.
Qed.

Lemma scan_rules_iff (lines : list string)
    (state final : listing * CompileConfig) :
  scan_rules lines state final ↔ scan_lines lines state final.
Proof.
  split.
  - induction 1; [constructor|].
    eapply scan_next; [by apply scan_rule_iff | done].
  - induction 1; [constructor|].
    eapply rules_next; [by apply scan_rule_iff | done].
Qed.

(** C1, as stated, fails: the parser trims the whole text before it splits
    it.  The only line of " #define A 1" starts with a space, hence with
    neither "#include " nor "#define ", so the scan over the lines of the
    text leaves the configuration unchanged; the parser defines A. *)
Lemma two_state_scan_counterexample :
  let output := " #define A 1" in
  let parsed := ClangCompiler_parseCompilerDefaults output no_overrides in
  is_lines output [output]
  ∧ (∀ final config,
        scan_rules [output] (Outside, no_overrides) (final, config) →
        config = no_overrides)
  ∧ defines parsed !! "A" = Some {| key := "A"; value := "1" |}
  ∧ ¬ ∃ final, scan_rules [output] (Outside, no_overrides) (final, parsed).
Proof.
  assert (Hscan : ∀ final config,
    scan_rules [" #define A 1"] (Outside, no_overrides) (final, config) →
    config = no_overrides).
  { intros final config Hscan.
    inversion Hscan as [|line lines state state' state'' Hrule Hrest]; subst.
    inversion Hrest; subst.
    inversion Hrule; subst; try done; simpl in *; discriminate. }
  split; [by repeat constructor|]. split; [exact Hscan|].
  split; [by vm_compute|].
  intros [final Hparsed]. apply Hscan in Hparsed.
  apply (f_equal (λ c, defines c !! "A")) in Hparsed.
  vm_compute in Hparsed. discriminate.
Qed.

(** C1 (amended). [parseCompilerDefaults] is the two-state scan of section
    4.4 over the lines of the trimmed text, that is, of the output with its
    leading and trailing white space removed: inside the listing, a line
    that begins with a space is trimmed, stripped of the framework marker,
    and added to the includes; any other line leaves the listing and is
    judged by the outside rules; outside, "#include " enters the listing,
    "#define " inserts the define built from the trimmed remainder with a
    space as splitter, and every other line changes nothing.  The
    configuration the parser returns is the one, and the only one, the scan
    ends with. *)
Theorem parseCompilerDefaults_scans_trimmed_text (output : string)
    (defaults : CompileConfig) (trimmed : string) (lines : list string) :
  is_trim output trimmed →
  is_lines trimmed lines →
  let parsed := ClangCompiler_parseCompilerDefaults output defaults in
  (∃ final, scan_rules lines (Outside, defaults) (final, parsed))
  ∧ (∀ final config,
        scan_rules lines (Outside, defaults) (final, config) →
        config = parsed).
Proof.
  intros ->%is_trim_iff <-%is_lines_split parsed.
  pose proof (foldl_parse_line_scan (JS.split "010" (JS.trim output)) false
                defaults) as Hscan.
  split.
  - eexists. apply scan_rules_iff. exact Hscan.
  - intros final config Hother%scan_rules_iff.
    by pose proof (scan_lines_deterministic _ _ _ _ Hother Hscan) as [= _ ->].
Qed.

(** The fixture of section 8: two include entries, the second stripped of
    its framework marker, and one define whose value is the quoted text. *)
Lemma parseCompilerDefaults_fixture :
  let parsed := ClangCompiler_parseCompilerDefaults probe_fixture no_overrides in
  includes parsed = {["/usr/include"; "/System/Library/Frameworks"]}
  ∧ defines parsed
    = {["__VERSION__" :=
          {| key := "__VERSION__";
             value := double_quote +:+ "1" +:+ double_quote |}]}
  ∧ forcedIncludes parsed = ∅.
Proof. vm_compute. done. Qed.

Lemma parseCompilerDefaults_scans_trimmed_text_witness :
  ∃ final,
    scan_rules
      ["#include <...> search starts here:"; " /usr/include";
       " /System/Library/Frameworks (framework directory)";
       "End of search list.";
       "#define __VERSION__ " +:+ double_quote +:+ "1" +:+ double_quote]
      (Outside, no_overrides)
      (final, ClangCompiler_parseCompilerDefaults probe_fixture no_overrides).
Proof.
  apply (parseCompilerDefaults_scans_trimmed_text probe_fixture no_overrides
           ("#include <...> search starts here:" +:+ newline
            +:+ " /usr/include" +:+ newline
            +:+ " /System/Library/Frameworks (framework directory)"
            +:+ newline +:+ "End of search list." +:+ newline
            +:+ "#define __VERSION__ " +:+ double_quote +:+ "1"
            +:+ double_quote)).
  - exists "", newline. by vm_compute.
  - split; [discriminate|]. split; [reflexivity|].
    repeat constructor.
Defined.

(** ** Probe strategies *)

Lemma gset_size_zero (X : gset string) : (size X =? 0)%nat = true ↔ X = ∅.
Proof. rewrite Nat.eqb_eq, size_empty_iff. apply leibniz_equiv_iff. Qed.

Lemma gmap_size_zero (m : gmap string Define) :
  (size m =? 0)%nat = true ↔ m = ∅.
Proof. rewrite Nat.eqb_eq. apply map_size_empty_iff. Qed.

(** C3. The static strategy builds a configuration with three empty
    containers and then fails on their being empty: [MsvcCompiler.fetch]
    rejects for every source root, command, file type and family variant,
    and never resolves with a compiler object. *)
Theorem MsvcCompiler_fetch_always_fails {Path : Type} (srcdir : Path)
    (command : CmdArgs) (type : FileType) (compilerType : string) :
  MsvcCompiler_fetch srcdir command type compilerType = Rejected EMPTY_RESULT
  ∧ ∀ compiler,
      MsvcCompiler_fetch srcdir command type compilerType ≠ Resolved compiler.
Proof.
  assert (Hfails : MsvcCompiler_fetch srcdir command type compilerType
                   = Rejected EMPTY_RESULT).
  { unfold MsvcCompiler_fetch. cbn [includes defines].
    by rewrite (proj2 (gset_size_zero ∅)). }
  split; [exact Hfails|].
  intros compiler. by rewrite Hfails.
Qed.

(** C4. When the configuration parsed from both streams has no include or
    no define, [ClangCompiler.fetch] rejects with the explicit error; a
    compiler object it resolves with never has an empty includes set or an
    empty defines map. *)
Theorem ClangCompiler_fetch_rejects_empty {Path : Type} (platform : string)
    (getCompiler : Path → FileType → option CmdArgs)
    (exec : CmdArgs → outcome ProcessResult)
    (srcdir : Path) (command : CmdArgs) (type : FileType)
    (buildConfig : gmap string string) :
  let fetched :=
    ClangCompiler_fetch platform getCompiler exec srcdir command type
      buildConfig in
  (∀ result,
      exec (probe_command platform getCompiler srcdir command type buildConfig)
        = Resolved result →
      includes (probed_defaults type result) = ∅
      ∨ defines (probed_defaults type result) = ∅ →
      fetched = Rejected EMPTY_RESULT)
  ∧ (∀ compiler,
        fetched = Resolved compiler →
        includes (defaults compiler) ≠ ∅ ∧ defines (defaults compiler) ≠ ∅).
Proof.
  intros fetched. subst fetched. unfold ClangCompiler_fetch. split.
  - intros result -> Hempty.
    destruct Hempty as [Hempty|Hempty].
    + by rewrite (proj2 (gset_size_zero _) Hempty).
    + rewrite (proj2 (gmap_size_zero _) Hempty). by rewrite orb_true_r.
  - intros compiler.
    destruct (exec _) as [result|message]; [|done].
    destruct (size (includes _) =? 0)%nat eqn:Hi; [done|].
    destruct (size (defines _) =? 0)%nat eqn:Hd; [done|].
    intros [= <-]. cbn [defaults]. split.
    + intros Hempty%gset_size_zero. congruence.
    + intros Hempty%gmap_size_zero. congruence.
Qed.

Lemma ClangCompiler_fetch_rejects_empty_witness :
  ClangCompiler_fetch "linux" (λ (_ : string) _, None)
    (λ _, Resolved {| stdout := ""; stderr := "" |})
    "/src" ["clang"] CPP ∅
  = Rejected EMPTY_RESULT
  ∧ includes (probed_defaults CPP {| stdout := ""; stderr := probe_fixture |})
    ≠ ∅
  ∧ defines (probed_defaults CPP {| stdout := ""; stderr := probe_fixture |})
    ≠ ∅.
Proof.
  split.
  - apply (proj1 (ClangCompiler_fetch_rejects_empty "linux"
                    (λ (_ : string) _, None)
                    (λ _, Resolved {| stdout := ""; stderr := "" |})
                    "/src" ["clang"] CPP ∅)
             {| stdout := ""; stderr := "" |}).
    + reflexivity.
    + left. vm_compute. reflexivity.
  - apply (proj2 (ClangCompiler_fetch_rejects_empty "linux"
                    (λ (_ : string) _, None)
                    (λ _, Resolved {| stdout := ""; stderr := probe_fixture |})
                    "/src" ["clang"] CPP ∅)
             (mkCompiler ClangCompiler "/src" ["clang"] CPP
                (probed_defaults CPP
                   {| stdout := ""; stderr := probe_fixture |}))).
    vm_compute. reflexivity.
Defined.

(** ** Factory *)

(** C6. [Compiler.create] rejects when the build configuration has no
    "CC_TYPE"; hands "clang" to [ClangCompiler.fetch] and "clang-cl" and
    "msvc" to [MsvcCompiler.fetch]; and rejects any other identifier with a
    message that contains the identifier. *)
Theorem Compiler_create_dispatch {Path : Type} (platform : string)
    (getCompiler : Path → FileType → option CmdArgs)
    (exec : CmdArgs → outcome ProcessResult)
    (srcdir : Path) (command : CmdArgs) (type : FileType)
    (config : gmap string string) :
  let created :=
    Compiler_create platform getCompiler exec srcdir command type config in
  (config !! "CC_TYPE" = None → ∃ message, created = Rejected message)
  ∧ (config !! "CC_TYPE" = Some "clang" →
     created =
     ClangCompiler_fetch platform getCompiler exec srcdir command type config)
  ∧ (config !! "CC_TYPE" = Some "clang-cl" →
     created = MsvcCompiler_fetch srcdir command type "clang-cl")
  ∧ (config !! "CC_TYPE" = Some "msvc" →
     created = MsvcCompiler_fetch srcdir command type "msvc")
  ∧ (∀ identifier,
        config !! "CC_TYPE" = Some identifier →
        identifier ≠ "clang" → identifier ≠ "clang-cl" → identifier ≠ "msvc" →
        ∃ message, created = Rejected message ∧ mentions message identifier).
Proof.
  intros created. subst created. unfold Compiler_create.
  repeat split.
  - intros ->. by eexists.
  - by intros ->.
  - by intros ->.
  - by intros ->.
  - intros identifier -> Hclang Hcl Hmsvc.
    destruct identifier as [|c identifier].
    + eexists. split; [done|]. by exists "", "Unable to determine compiler types.".
    + cbn [JS.truthy negb from_option id].
      apply String.eqb_neq in Hclang, Hcl, Hmsvc.
      rewrite Hclang, Hcl, Hmsvc. cbn [orb].
      eexists. split; [done|].
      by exists "Unknown compiler type ", ".".
Qed.

Lemma Compiler_create_dispatch_witness :
  ∃ message,
    Compiler_create "linux" (λ (_ : string) _, None)
      (λ _, Rejected "not run") "/src" ["gcc"] C {["CC_TYPE" := "gcc"]}
    = Rejected message
    ∧ mentions message "gcc".
Proof.
  apply (Compiler_create_dispatch "linux" (λ (_ : string) _, None)
           (λ _, Rejected "not run") "/src" ["gcc"] C {["CC_TYPE" := "gcc"]}).
  - reflexivity.
  - discriminate.
  - discriminate.
  - discriminate.
Defined.

(** ** Cloning in the object store *)

Section HeapFacts.
Import Heap.

Lemma alloc_spec (σ σ' : store) (c : container) (l : loc) :
  alloc σ c = (σ', l) → σ !! l = None ∧ σ' = <[l := c]> σ.
Proof.
  unfold alloc. intros [= <- <-]. split; [|done].
  apply not_elem_of_dom, is_fresh.
Qed.

Lemma read_refs (σ : store) (config : ConfigObject) (contents : CompileConfig) :
  read σ config = Some contents →
  σ !! includes_ref config = Some (SetObject (includes contents))
  ∧ σ !! defines_ref config = Some (MapObject (defines contents))
  ∧ σ !! forcedIncludes_ref config = Some (SetObject (forcedIncludes contents)).
Proof.
  unfold read. intros Hread.
  repeat (case_match; try done). by simplify_eq/=.
Qed.

(** [cloneConfig] allocates three containers that the store did not hold,
    filled with the contents of the three it copies. *)
Lemma cloneConfig_fresh (σ : store) (config : ConfigObject)
    (contents : CompileConfig) :
  read σ config = Some contents →
  ∃ i d f,
    σ !! i = None ∧ σ !! d = None ∧ σ !! f = None
    ∧ i ≠ d ∧ i ≠ f ∧ d ≠ f
    ∧ cloneConfig σ config
      = Some (<[f := SetObject (forcedIncludes contents)]>
                (<[d := MapObject (defines contents)]>
                   (<[i := SetObject (includes contents)]> σ)),
              {| includes_ref := i;
                 defines_ref := d;
                 forcedIncludes_ref := f;
                 mode := mode config;
                 std := std config |}).
Proof.
  intros Hread. destruct (read_refs _ _ _ Hread) as (Hi & Hd & Hf).
  set (σ1 := <[fresh (dom σ) := SetObject (includes contents)]> σ).
  set (σ2 := <[fresh (dom σ1) := MapObject (defines contents)]> σ1).
  pose proof (is_fresh (dom σ)) as Hi_fresh.
  pose proof (is_fresh (dom σ1)) as Hd_fresh.
  pose proof (is_fresh (dom σ2)) as Hf_fresh.
  apply not_elem_of_dom in Hi_fresh, Hd_fresh, Hf_fresh.
  exists (fresh (dom σ)), (fresh (dom σ1)), (fresh (dom σ2)).
  assert (fresh (dom σ) ≠ fresh (dom σ1)) as Hid.
  { intros Heq. rewrite <- Heq in Hd_fresh. unfold σ1 in Hd_fresh.
    by rewrite lookup_insert_eq in Hd_fresh. }
  assert (fresh (dom σ1) ≠ fresh (dom σ2)) as Hdf.
  { intros Heq. rewrite <- Heq in Hf_fresh. unfold σ2 in Hf_fresh.
    by rewrite lookup_insert_eq in Hf_fresh. }
  assert (σ1 !! fresh (dom σ2) = None) as Hf1.
  { unfold σ2 in Hf_fresh. by rewrite lookup_insert_ne in Hf_fresh. }
  assert (fresh (dom σ) ≠ fresh (dom σ2)) as Hif.
  { intros Heq. rewrite <- Heq in Hf1. unfold σ1 in Hf1.
    by rewrite lookup_insert_eq in Hf1. }
  assert (σ !! fresh (dom σ1) = None) as Hd0.
  { unfold σ1 in Hd_fresh. by rewrite lookup_insert_ne in Hd_fresh. }
  assert (σ !! fresh (dom σ2) = None) as Hf0.
  { unfold σ1 in Hf1. by rewrite lookup_insert_ne in Hf1. }
  assert (fresh (dom σ) ≠ defines_ref config) as Hnd by congruence.
  assert (fresh (dom σ) ≠ forcedIncludes_ref config) as Hnf by congruence.
  assert (fresh (dom σ1) ≠ forcedIncludes_ref config) as Hnf1 by congruence.
  repeat split; try done.
  unfold cloneConfig, new_Set, new_Map, alloc.
  rewrite Hi. cbn [mbind option_bind]. fold σ1.
  assert (σ1 !! defines_ref config = Some (MapObject (defines contents)))
    as ->.
  { unfold σ1. by rewrite lookup_insert_ne. }
  cbn [mbind option_bind]. fold σ2.
  assert (σ2 !! forcedIncludes_ref config
          = Some (SetObject (forcedIncludes contents))) as ->.
  { unfold σ2. rewrite lookup_insert_ne by done.
    unfold σ1. by rewrite lookup_insert_ne. }
  done.
Qed.

(** [read] only looks at the three containers of the configuration. *)
Lemma read_ext (σ σ' : store) (config : ConfigObject) :
  (∀ l, l ∈ refs config → σ' !! l = σ !! l) →
  read σ' config = read σ config.
Proof.
  intros Hsame. unfold read.
  rewrite !Hsame; [done|unfold refs; set_solver..].
Qed.

Lemma mutate_all_lookup (calls : list (mutation * loc)) (σ : store) (l : loc) :
  Forall (λ call, call.2 ≠ l) calls →
  mutate_all calls σ !! l = σ !! l.
Proof.
  revert σ. induction calls as [|[m l'] calls IH]; intros σ Hcalls; [done|].
  apply Forall_cons in Hcalls as [Hne Hcalls]. simpl in Hne.
  change (mutate_all ((m, l') :: calls) σ)
    with (mutate_all calls (mutate m l' σ)).
  rewrite IH by done. unfold mutate. by apply lookup_alter_ne.
Qed.

End HeapFacts.

(** C7. [getDefaultConfiguration] returns a configuration whose three
    containers are new: it holds the contents of the defaults, and whatever
    mutating calls are then made on the includes set, the defines map or the
    forced-includes set of the clone, the defaults still hold the contents
    they had. *)
Theorem getDefaultConfiguration_no_aliasing (σ : Heap.store)
    (defaults : Heap.ConfigObject) (contents : CompileConfig) :
  Heap.read σ defaults = Some contents →
  ∃ σ' clone,
    Heap.getDefaultConfiguration σ defaults = Some (σ', clone)
    ∧ Heap.read σ' clone = Some contents
    ∧ Heap.read σ' defaults = Some contents
    ∧ ∀ calls,
        Forall (λ call, call.2 ∈ Heap.refs clone) calls →
        Heap.read (Heap.mutate_all calls σ') defaults = Some contents.
Proof.
  intros Hread.
  destruct (cloneConfig_fresh _ _ _ Hread)
    as (i & d & f & Hi_fresh & Hd_fresh & Hf_fresh & ? & ? & ? & Hclone).
  destruct (read_refs _ _ _ Hread) as (Hi & Hd & Hf).
  assert (Heap.includes_ref defaults ≠ i) by congruence.
  assert (Heap.defines_ref defaults ≠ i) by congruence.
  assert (Heap.forcedIncludes_ref defaults ≠ i) by congruence.
  assert (Heap.includes_ref defaults ≠ d) by congruence.
  assert (Heap.defines_ref defaults ≠ d) by congruence.
  assert (Heap.forcedIncludes_ref defaults ≠ d) by congruence.
  assert (Heap.includes_ref defaults ≠ f) by congruence.
  assert (Heap.defines_ref defaults ≠ f) by congruence.
  assert (Heap.forcedIncludes_ref defaults ≠ f) by congruence.
  eexists _, _. split; [exact Hclone|].
  assert (Hkept : ∀ l, l ∈ Heap.refs defaults →
            (<[f:=Heap.SetObject (forcedIncludes contents)]>
               (<[d:=Heap.MapObject (defines contents)]>
                  (<[i:=Heap.SetObject (includes contents)]> σ))) !! l
            = σ !! l).
  { intros l Hl. unfold Heap.refs in Hl.
    rewrite !elem_of_cons, elem_of_nil in Hl.
    destruct Hl as [->|[->|[->|[]]]]; by rewrite !lookup_insert_ne. }
  split; [|split].
  - unfold Heap.read. cbn [Heap.includes_ref Heap.defines_ref
      Heap.forcedIncludes_ref Heap.mode Heap.std].
    rewrite lookup_insert_ne, lookup_insert_ne, lookup_insert_eq by done.
    rewrite lookup_insert_ne, lookup_insert_eq by done.
    rewrite lookup_insert_eq.
    unfold Heap.read in Hread. rewrite Hi, Hd, Hf in Hread.
    by injection Hread as <-.
  - by rewrite (read_ext _ _ _ Hkept).
  - intros calls Hcalls.
    rewrite <- Hread. apply read_ext.
    intros l Hl. rewrite mutate_all_lookup; [by apply Hkept|].
    eapply Forall_impl; [exact Hcalls|].
    intros [m l'] Hl' Heq. cbn [snd] in Hl', Heq. subst l'.
    unfold Heap.refs in Hl, Hl'.
    cbn [Heap.includes_ref Heap.defines_ref Heap.forcedIncludes_ref] in Hl'.
    rewrite !elem_of_cons, elem_of_nil in Hl, Hl'.
    destruct Hl as [Hl|[Hl|[Hl|[]]]], Hl' as [Hl'|[Hl'|[Hl'|[]]]]; congruence.
Qed.

Lemma getDefaultConfiguration_no_aliasing_witness :
  ∃ σ' clone,
    Heap.getDefaultConfiguration store_fixture defaults_fixture
      = Some (σ', clone)
    ∧ Heap.read σ' clone = Some contents_fixture
    ∧ Heap.read σ' defaults_fixture = Some contents_fixture
    ∧ ∀ calls,
        Forall (λ call, call.2 ∈ Heap.refs clone) calls →
        Heap.read (Heap.mutate_all calls σ') defaults_fixture
        = Some contents_fixture.
Proof.
  apply (getDefaultConfiguration_no_aliasing store_fixture defaults_fixture
           contents_fixture).
  vm_compute. reflexivity.
Defined.


(** * Further properties *)

(** ** Define construction, continued *)

Lemma first_occurrence (ch : ascii) (text : string) :
  ¬ occurs ch text
  ∨ ∃ before after, text = before +:+ String ch after ∧ ¬ occurs ch before.
Proof.
  induction text as [|c text IH].
  - left. apply occurs_empty.
  - destruct (ascii_dec ch c) as [->|Hne].
    + right. exists "", text. split; [done | apply occurs_empty].
    + destruct IH as [Hno|(before & after & -> & Hno)].
      * left. rewrite occurs_cons. by intros [?|?].
      * right. exists (String c before), after. split; [done|].
        rewrite occurs_cons. by intros [?|?].
Qed.

Lemma buildDefine_key_free (text : string) (ch : ascii) :
  ¬ occurs ch (key (buildDefine text (String ch ""))).
Proof.
  destruct (first_occurrence ch text) as [Hno|(before & after & Heq & Hno)].
  - by rewrite (buildDefine_absent _ _ Hno).
  - by rewrite (buildDefine_found _ _ _ _ Heq Hno).
Qed.

(** X1. The key [buildDefine] returns never contains the (one-character)
    splitter, and either the text is the key, the splitter and the value put
    together again, or the key is the whole text and the value is "1". *)
Theorem buildDefine_round_trip (text : string) (ch : ascii) :
  let define := buildDefine text (String ch "") in
  ¬ occurs ch (key define)
  ∧ (text = key define +:+ String ch (value define)
     ∨ (key define = text ∧ value define = "1")).
Proof.
  destruct (first_occurrence ch text) as [Hno|(before & after & Heq & Hno)].
  - rewrite (buildDefine_absent _ _ Hno). simpl. split; [done | by right].
  - rewrite (buildDefine_found _ _ _ _ Heq Hno). simpl.
    split; [done | by left].
Qed.

Lemma indexOf_go_range (text pat : string) (i : Z) :
  JS.indexOf_go text pat i = -1
  ∨ (i ≤ JS.indexOf_go text pat i ≤ i + JS.length text).
Proof.
  revert i. induction text as [|c text IH]; intros i; cbn [JS.indexOf_go].
  - destruct (String.prefix pat ""); [right | by left].
    unfold JS.length. simpl. lia.
  - destruct (String.prefix pat (String c text)).
    + right. unfold JS.length. simpl. lia.
    + destruct (IH (i + 1)) as [->|Hrange]; [by left|right].
      unfold JS.length in *. simpl String.length. lia.
Qed.

Lemma JS_substring_take (s : string) (n : nat) :
  (n ≤ String.length s)%nat →
  JS.substring s 0 (Z.of_nat n) = String.substring 0 n s.
Proof.
  intros Hn. unfold JS.substring, JS.clamp, JS.length.
  replace (Z.to_nat (Z.min (Z.max 0 0) _)) with 0%nat by lia.
  replace (Z.to_nat (Z.min (Z.max (Z.of_nat n) 0) _)) with n by lia.
  by rewrite Nat.min_0_l, Nat.max_0_l, Nat.sub_0_r.
Qed.

Lemma JS_substring_from_drop (s : string) (n : nat) :
  (n ≤ String.length s)%nat →
  JS.substring_from s (Z.of_nat n)
  = String.substring n (String.length s - n) s.
Proof.
  intros Hn. unfold JS.substring_from, JS.substring, JS.clamp, JS.length.
  replace (Z.to_nat (Z.min (Z.max (Z.of_nat n) 0) _)) with n by lia.
  replace (Z.to_nat (Z.min (Z.max (Z.of_nat (String.length s)) 0) _))
    with (String.length s) by lia.
  by rewrite Nat.min_l, Nat.max_r by lia.
Qed.

Lemma JS_substring_from_end (s : string) (n : nat) :
  (String.length s ≤ n)%nat → JS.substring_from s (Z.of_nat n) = "".
Proof.
  intros Hn. unfold JS.substring_from, JS.substring, JS.clamp, JS.length.
  replace (Z.to_nat (Z.min (Z.max (Z.of_nat n) 0) _))
    with (String.length s) by lia.
  replace (Z.to_nat (Z.min (Z.max (Z.of_nat (String.length s)) 0) _))
    with (String.length s) by lia.
  rewrite Nat.min_id, Nat.max_id, Nat.sub_diag.
  clear. induction s as [|c s IH]; simpl; [done | exact IH].
Qed.

(** A string is its first [n] characters, the character at [n] and the
    rest; the last two are empty when [n] is the length. *)
Lemma string_cut_at (s : string) (n : nat) :
  (n ≤ String.length s)%nat →
  s = String.substring 0 n s +:+ JS.charAt s n
        +:+ JS.substring_from s (Z.of_nat (S n)).
Proof.
  revert n. induction s as [|c s IH]; intros n Hn.
  - simpl in Hn. replace n with 0%nat by lia. reflexivity.
  - destruct n as [|n].
    + change (JS.charAt (String c s) 0) with (String c "").
      rewrite (JS_substring_from_drop (String c s) 1) by (simpl; lia).
      simpl. by rewrite Nat.sub_0_r, substring_all.
    + simpl in Hn.
      change (JS.charAt (String c s) (S n)) with (JS.charAt s n).
      simpl String.substring. simpl String.append. f_equal.
      rewrite (IH n) at 1 by lia. do 2 f_equal.
      destruct (decide (S n ≤ String.length s)%nat).
      * rewrite !JS_substring_from_drop by (simpl; lia). done.
      * rewrite !JS_substring_from_end by (simpl; lia). done.
Qed.

(** X2. Whatever the length of the splitter, a match drops exactly one
    character: the key is the text before the match position, the value the
    text from the character after it on. *)
Theorem buildDefine_drops_one_character (text splitter : string) :
  0 ≤ JS.indexOf text splitter →
  let pos := JS.indexOf text splitter in
  let define := buildDefine text splitter in
  JS.length (key define) = pos
  ∧ text = key define +:+ JS.charAt text (Z.to_nat pos) +:+ value define.
Proof.
  intros Hpos pos define. subst define. unfold buildDefine. fold pos.
  destruct (Z.leb_spec 0 pos) as [_|]; [|lia]. cbn [key value].
  destruct (indexOf_go_range text splitter 0) as [Hnone|Hrange].
  { unfold JS.indexOf in Hpos. lia. }
  fold (JS.indexOf text splitter) in Hrange. fold pos in Hrange.
  unfold JS.length in Hrange.
  assert (Hn : (Z.to_nat pos ≤ String.length text)%nat) by lia.
  assert (Hp : pos = Z.of_nat (Z.to_nat pos)) by lia.
  clearbody pos. revert Hn Hp. generalize (Z.to_nat pos). intros n Hn ->.
  rewrite JS_substring_take by done.
  replace (Z.of_nat n + 1) with (Z.of_nat (S n)) by lia.
  split.
  - unfold JS.length. clear -Hn. revert n Hn.
    induction text as [|c text IH]; intros [|n] Hn; simpl in *;
      try done; try lia.
    rewrite Nat2Z.inj_succ, (IH n) by lia. lia.
  - by apply string_cut_at.
Qed.

Lemma buildDefine_drops_one_character_witness :
  JS.length (key (buildDefine "NS::NAME" "::")) = 2
  ∧ "NS::NAME"
    = key (buildDefine "NS::NAME" "::") +:+ JS.charAt "NS::NAME" 2
        +:+ value (buildDefine "NS::NAME" "::").
Proof.
  apply (buildDefine_drops_one_character "NS::NAME" "::").
  vm_compute. discriminate.
Defined.

(** ** The override parser, continued *)

(** One iteration, by the rule the current token falls under. *)
Lemma process_args_cons (flag arg : string) (rest : list string)
    (config : CompileConfig) :
  arg ≠ "" →
  process_args flag (arg :: rest) config =
  match classify flag arg with
  | NotAFlag | OtherFlag => process_args flag rest config
  | DefineFlag remainder =>
      process_args flag rest (set_define (buildDefine remainder "=") config)
  | IncludeFlag remainder =>
      process_args flag rest (add_include remainder config)
  | ForcedIncludeFlag =>
      match rest with
      | [] => config
      | include :: rest' =>
          if JS.truthy (Some include)
          then process_args flag rest' (add_forcedInclude include config)
          else process_args flag rest' config
      end
  end.
Proof.
  intros Harg. destruct arg as [|c0 [|c1 r]]; [done| |].
  - reflexivity.
  - cbn [process_args JS.truthy negb classify].
    rewrite JS_length_two_or_more, JS_substring_from_two.
    change (JS.charAt (String c0 (String c1 r)) 0) with (String c0 "").
    change (JS.charAt (String c0 (String c1 r)) 1) with (String c1 "").
    rewrite !String_eqb_single, String_eqb_decide. simpl orb.
    destruct (Ascii.eqb c0 "-"), (Ascii.eqb c0 "/"); simpl; try done;
      destruct (Ascii.eqb c1 "D"); try done;
      destruct (Ascii.eqb c1 "I"); try done;
      by case_bool_decide.
Qed.

(** An invariant of the configuration holds after the loop when the three
    container updates the loop can make preserve it. *)
Lemma process_args_preserves (flag : string) (Q : CompileConfig → Prop) :
  (∀ remainder x, Q x → Q (set_define (buildDefine remainder "=") x)) →
  (∀ path x, Q x → Q (add_include path x)) →
  (∀ path x, Q x → Q (add_forcedInclude path x)) →
  ∀ args x, Q x → Q (process_args flag args x).
Proof.
  intros Hdefine Hinclude Hforced args.
  induction args as [args IH] using (induction_ltof1 _ (@length string)).
  unfold ltof in IH. intros x HQ.
  destruct args as [|arg rest]; [done|].
  destruct (decide (arg = "")) as [->|Harg]; [done|].
  rewrite process_args_cons by done.
  destruct (classify flag arg);
    try (apply IH; [simpl; lia | by auto]).
  destruct rest as [|include rest']; [done|].
  destruct (JS.truthy (Some include)); apply IH; simpl; try lia; by auto.
Qed.

Lemma apply_updates_snoc (us : list update) (u : update)
    (config : CompileConfig) :
  apply_updates (us ++ [u]) config = apply_update u (apply_updates us config).
Proof. unfold apply_updates. by rewrite foldl_app. Qed.

(** The loop amounts to a list of updates that does not depend on the
    configuration it starts from. *)
Lemma process_args_updates (flag : string) (args : list string) :
  ∃ us, ∀ config, process_args flag args config = apply_updates us config.
Proof.
  induction args as [args IH] using (induction_ltof1 _ (@length string)).
  unfold ltof in IH.
  destruct (loop_step_uniform flag args) as [Hnone|(args' & u & Hlt & Hsome)].
  - exists []. intros config.
    by rewrite process_args_step, Hnone.
  - destruct (IH args' Hlt) as [us Hus].
    exists (u :: us). intros config.
    by rewrite process_args_step, Hsome, Hus.
Qed.

(** What a list of updates does to a configuration is what it does to the
    empty one, merged over the configuration. *)
Lemma apply_updates_factor (us : list update) (config : CompileConfig) :
  includes (apply_updates us config)
  = includes config ∪ includes (apply_updates us no_overrides)
  ∧ forcedIncludes (apply_updates us config)
    = forcedIncludes config ∪ forcedIncludes (apply_updates us no_overrides)
  ∧ defines (apply_updates us config)
    = defines (apply_updates us no_overrides) ∪ defines config
  ∧ intelliSenseMode (apply_updates us config) = intelliSenseMode config
  ∧ standard (apply_updates us config) = standard config.
Proof.
  induction us as [|u us IH] using rev_ind.
  - cbn. repeat split.
    + by rewrite (right_id_L ∅ (∪)).
    + by rewrite (right_id_L ∅ (∪)).
    + by rewrite (left_id_L ∅ (∪)).
  - rewrite !apply_updates_snoc.
    destruct IH as (Hi & Hf & Hd & Hm & Hs).
    destruct u; cbn [apply_update]; try done; simpl;
      repeat split; try done.
    + rewrite Hd. apply insert_union_l.
    + rewrite Hi. rewrite !(assoc_L (∪)).
      by rewrite (comm_L (∪) {[path]} (includes config)).
    + rewrite Hf. rewrite !(assoc_L (∪)).
      by rewrite (comm_L (∪) {[path]} (forcedIncludes config)).
Qed.

Lemma process_args_factor (flag : string) (args : list string)
    (config : CompileConfig) :
  includes (process_args flag args config)
  = includes config ∪ includes (process_args flag args no_overrides)
  ∧ forcedIncludes (process_args flag args config)
    = forcedIncludes config
      ∪ forcedIncludes (process_args flag args no_overrides)
  ∧ defines (process_args flag args config)
    = defines (process_args flag args no_overrides) ∪ defines config
  ∧ intelliSenseMode (process_args flag args config)
    = intelliSenseMode config
  ∧ standard (process_args flag args config) = standard config.
Proof.
  destruct (process_args_updates flag args) as [us Hus].
  rewrite !Hus. apply apply_updates_factor.
Qed.

(** X3. The overrides of a command line do not depend on the configuration
    they are applied to: the result is the overrides collected from the empty
    configuration, merged over the given one, with the overrides' defines
    winning. *)
Theorem addCompilerArgumentsToConfig_factor
    (splitCmdLine : string → list string) (cmdLine : option string)
    (forceIncludeArg : string) (config : CompileConfig) :
  let overrides :=
    addCompilerArgumentsToConfig splitCmdLine cmdLine forceIncludeArg
      no_overrides in
  let result :=
    addCompilerArgumentsToConfig splitCmdLine cmdLine forceIncludeArg config in
  includes result = includes config ∪ includes overrides
  ∧ forcedIncludes result = forcedIncludes config ∪ forcedIncludes overrides
  ∧ defines result = defines overrides ∪ defines config.
Proof.
  unfold addCompilerArgumentsToConfig.
  destruct (negb (JS.truthy cmdLine)).
  - cbn. by rewrite !(right_id_L ∅ (∪)), (left_id_L ∅ (∪)).
  - destruct (process_args_factor forceIncludeArg
                (splitCmdLine (default "" cmdLine)) config)
      as (Hi & Hf & Hd & _). done.
Qed.

(** X4. Two calls, with any two command lines and flags, collect the same
    includes, forced includes and define keys in either order. *)
Theorem addCompilerArgumentsToConfig_commute
    (splitCmdLine : string → list string) (cmdLine1 cmdLine2 : option string)
    (flag1 flag2 : string) (config : CompileConfig) :
  let first_then_second :=
    addCompilerArgumentsToConfig splitCmdLine cmdLine2 flag2
      (addCompilerArgumentsToConfig splitCmdLine cmdLine1 flag1 config) in
  let second_then_first :=
    addCompilerArgumentsToConfig splitCmdLine cmdLine1 flag1
      (addCompilerArgumentsToConfig splitCmdLine cmdLine2 flag2 config) in
  includes first_then_second = includes second_then_first
  ∧ forcedIncludes first_then_second = forcedIncludes second_then_first
  ∧ dom (defines first_then_second) = dom (defines second_then_first).
Proof.
  assert (Hfactor : ∀ cmdLine flag c,
    includes (addCompilerArgumentsToConfig splitCmdLine cmdLine flag c)
    = includes c
      ∪ includes (addCompilerArgumentsToConfig splitCmdLine cmdLine flag
                    no_overrides)
    ∧ forcedIncludes (addCompilerArgumentsToConfig splitCmdLine cmdLine flag c)
      = forcedIncludes c
        ∪ forcedIncludes (addCompilerArgumentsToConfig splitCmdLine cmdLine
                            flag no_overrides)
    ∧ defines (addCompilerArgumentsToConfig splitCmdLine cmdLine flag c)
      = defines (addCompilerArgumentsToConfig splitCmdLine cmdLine flag
                   no_overrides) ∪ defines c).
  { intros cmdLine flag c. unfold addCompilerArgumentsToConfig.
    destruct (negb (JS.truthy cmdLine)).
    - cbn. by rewrite !(right_id_L ∅ (∪)), (left_id_L ∅ (∪)).
    - destruct (process_args_factor flag
                  (splitCmdLine (default "" cmdLine)) c)
        as (Hi & Hf & Hd & _). done. }
  intros first_then_second second_then_first.
  subst first_then_second second_then_first.
  destruct (Hfactor cmdLine2 flag2
              (addCompilerArgumentsToConfig splitCmdLine cmdLine1 flag1 config))
    as (-> & -> & ->).
  destruct (Hfactor cmdLine1 flag1
              (addCompilerArgumentsToConfig splitCmdLine cmdLine2 flag2 config))
    as (-> & -> & ->).
  destruct (Hfactor cmdLine1 flag1 config) as (-> & -> & ->).
  destruct (Hfactor cmdLine2 flag2 config) as (-> & -> & ->).
  rewrite !dom_union_L. repeat split.
  - rewrite <- !(assoc_L (∪)). f_equal. apply (comm_L (∪)).
  - rewrite <- !(assoc_L (∪)). f_equal. apply (comm_L (∪)).
  - rewrite !(assoc_L (∪)). f_equal. apply (comm_L (∪)).
Qed.

Lemma classify_plain_token (flag token : string) :
  plain_token flag token →
  classify flag token = NotAFlag ∨ classify flag token = OtherFlag.
Proof.
  intros [Hflag Hplain].
  destruct token as [|c0 [|c1 r]]; [by left..|].
  unfold classify.
  destruct (Ascii.eqb c0 "-" || Ascii.eqb c0 "/") eqn:Hc0; [|by left].
  assert (c0 = "-"%char ∨ c0 = "/"%char) as Hc.
  { apply orb_true_iff in Hc0 as [?%Ascii.eqb_eq|?%Ascii.eqb_eq]; auto. }
  destruct (Hplain c0 r Hc) as [HD HI].
  destruct (Ascii.eqb_spec c1 "D") as [->|_]; [done|].
  destruct (Ascii.eqb_spec c1 "I") as [->|_]; [done|].
  rewrite bool_decide_eq_false_2 by done. by right.
Qed.

(** X5. A command line without define flags, include flags and the
    forced-include flag (compiler names, source and output files, any other
    option) leaves the configuration exactly as it was. *)
Theorem addCompilerArgumentsToConfig_plain_tokens
    (splitCmdLine : string → list string) (cmdLine : string)
    (forceIncludeArg : string) (config : CompileConfig) :
  Forall (plain_token forceIncludeArg) (splitCmdLine cmdLine) →
  addCompilerArgumentsToConfig splitCmdLine (Some cmdLine) forceIncludeArg
    config
  = config.
Proof.
  intros Htokens. unfold addCompilerArgumentsToConfig.
  destruct (negb (JS.truthy (Some cmdLine))); [done|].
  cbn [from_option id].
  induction Htokens as [|token tokens Htoken _ IH]; [done|].
  destruct (decide (token = "")) as [->|Hne]; [done|].
  rewrite process_args_cons by done.
  by destruct (classify_plain_token _ _ Htoken) as [->| ->].
Qed.

Lemma addCompilerArgumentsToConfig_plain_tokens_witness :
  addCompilerArgumentsToConfig Tokenizer.splitCmdLine
    (Some "clang++ -o Unified.o -Wall -std=gnu++17 Unified.cpp") "-include"
    contents_fixture
  = contents_fixture.
Proof.
  apply (addCompilerArgumentsToConfig_plain_tokens Tokenizer.splitCmdLine
           "clang++ -o Unified.o -Wall -std=gnu++17 Unified.cpp" "-include"
           contents_fixture).
  vm_compute.
  repeat constructor; try discriminate;
    intros c r [-> | ->]; split; discriminate.
Defined.

Lemma classify_forced (flag token : string) :
  classify flag token = ForcedIncludeFlag → token = flag.
Proof.
  unfold classify. repeat case_match; try done.
  intros _. by eapply bool_decide_eq_true_1.
Qed.

(** X6. A command line in which no token is the forced-include flag never
    changes [forcedIncludes], whatever else it contains. *)
Theorem addCompilerArgumentsToConfig_without_flag
    (splitCmdLine : string → list string) (cmdLine : option string)
    (forceIncludeArg : string) (config : CompileConfig) :
  forceIncludeArg ∉ splitCmdLine (default "" cmdLine) →
  forcedIncludes
    (addCompilerArgumentsToConfig splitCmdLine cmdLine forceIncludeArg config)
  = forcedIncludes config.
Proof.
  unfold addCompilerArgumentsToConfig.
  destruct (negb (JS.truthy cmdLine)); [done|].
  generalize (splitCmdLine (default "" cmdLine)). intros tokens.
  revert config. induction tokens as [|token tokens IH]; intros config Hno;
    [done|].
  apply not_elem_of_cons in Hno as [Hne Hno].
  destruct (decide (token = "")) as [->|Htoken]; [done|].
  rewrite process_args_cons by done.
  destruct (classify forceIncludeArg token) eqn:Hrule;
    try (by rewrite IH).
  by apply classify_forced in Hrule.
Qed.

Lemma addCompilerArgumentsToConfig_without_flag_witness :
  forcedIncludes
    (addCompilerArgumentsToConfig Tokenizer.splitCmdLine
       (Some "-DDEBUG -include mozilla-config.h") "-FI" no_overrides)
  = forcedIncludes no_overrides.
Proof.
  apply (addCompilerArgumentsToConfig_without_flag Tokenizer.splitCmdLine
           (Some "-DDEBUG -include mozilla-config.h") "-FI" no_overrides).
  vm_compute. intros Hin.
  repeat (apply elem_of_cons in Hin as [Hin|Hin]; [discriminate|]).
  by apply elem_of_nil in Hin.
Defined.

(** X7. The forced-include flag is matched as a whole token: the token that
    follows it is taken as the path even when it looks like a flag itself,
    and a token that merely starts with the flag (the path written against
    the flag) is ignored. *)
Theorem process_args_forced_flag_exact (flag : string) :
  classify flag flag = ForcedIncludeFlag →
  (∀ path rest config,
      path ≠ "" →
      process_args flag (flag :: path :: rest) config
      = process_args flag rest (add_forcedInclude path config))
  ∧ (∀ path rest config,
        path ≠ "" →
        process_args flag ((flag +:+ path) :: rest) config
        = process_args flag rest config).
Proof.
  intros Hflag.
  assert (Hne : flag ≠ "") by (by intros ->).
  split.
  - intros path rest config Hpath.
    rewrite process_args_cons, Hflag by done.
    by destruct path.
  - intros path rest config Hpath.
    assert (flag +:+ path ≠ flag) as Hlonger.
    { intros Heq. apply (f_equal String.length) in Heq.
      rewrite string_length_app in Heq. destruct path; simpl in *; [done|lia]. }
    rewrite process_args_cons by (destruct flag; [done | discriminate]).
    destruct flag as [|c0 [|c1 r]]; try done.
    unfold classify in *. cbn [String.append].
    destruct (Ascii.eqb c0 "-" || Ascii.eqb c0 "/"); [|done].
    destruct (Ascii.eqb c1 "D"); [done|].
    destruct (Ascii.eqb c1 "I"); [done|].
    by rewrite bool_decide_eq_false_2.
Qed.

Lemma process_args_forced_flag_exact_witness :
  process_args "-include" ["-include"; "-DFOO"; "-DBAR"] no_overrides
  = process_args "-include" ["-DBAR"] (add_forcedInclude "-DFOO" no_overrides)
  ∧ process_args "-FI" ["-FImozilla-config.h"; "-DBAR"] no_overrides
    = process_args "-FI" ["-DBAR"] no_overrides.
Proof.
  split.
  - apply (proj1 (process_args_forced_flag_exact "-include" eq_refl)
             "-DFOO" ["-DBAR"] no_overrides).
    discriminate.
  - apply (proj2 (process_args_forced_flag_exact "-FI" eq_refl)
             "mozilla-config.h" ["-DBAR"] no_overrides).
    discriminate.
Defined.

(** X8. Every define found after a call is either an entry the
    configuration already had, untouched, or a define stored under its own
    key, and that key contains no ['=']. *)
Theorem addCompilerArgumentsToConfig_define_entries
    (splitCmdLine : string → list string) (cmdLine : option string)
    (forceIncludeArg : string) (config : CompileConfig) (k : string)
    (d : Define) :
  defines
    (addCompilerArgumentsToConfig splitCmdLine cmdLine forceIncludeArg config)
    !! k = Some d →
  defines config !! k = Some d ∨ (key d = k ∧ ¬ occurs "=" k).
Proof.
  unfold addCompilerArgumentsToConfig.
  destruct (negb (JS.truthy cmdLine)); [by left|].
  revert k d.
  apply (process_args_preserves forceIncludeArg
           (λ x, ∀ k d, defines x !! k = Some d →
                   defines config !! k = Some d
                   ∨ (key d = k ∧ ¬ occurs "=" k))).
  - intros remainder x Hx k d. simpl.
    destruct (decide (key (buildDefine remainder "=") = k)) as [<-|Hne].
    + rewrite lookup_insert_eq. intros [= <-]. right. split; [done|].
      apply buildDefine_key_free.
    + rewrite lookup_insert_ne by done. apply Hx.
  - intros path x Hx. exact Hx.
  - intros path x Hx. exact Hx.
  - intros k d. by left.
Qed.

Lemma addCompilerArgumentsToConfig_define_entries_witness :
  defines contents_fixture !! "MOZ" = Some {| key := "MOZ"; value := "a=b" |}
  ∨ (key {| key := "MOZ"; value := "a=b" |} = "MOZ" ∧ ¬ occurs "=" "MOZ").
Proof.
  apply (addCompilerArgumentsToConfig_define_entries Tokenizer.splitCmdLine
           (Some "-DMOZ=a=b") "-include" contents_fixture).
  vm_compute. reflexivity.
Defined.

(** ** Overrides in the object store *)

Section InPlaceFacts.
Import Heap.

Lemma refs_distinct (config : ConfigObject) :
  NoDup (refs config) →
  includes_ref config ≠ defines_ref config
  ∧ includes_ref config ≠ forcedIncludes_ref config
  ∧ defines_ref config ≠ forcedIncludes_ref config.
Proof.
  unfold refs. rewrite !NoDup_cons, !not_elem_of_cons.
  by intros ((? & ? & _) & (? & _) & _).
Qed.

Lemma read_Set_add_includes (σ : store) (config : ConfigObject)
    (contents : CompileConfig) (path : string) :
  NoDup (refs config) → read σ config = Some contents →
  read (mutate (Set_add path) (includes_ref config) σ) config
  = Some (add_include path contents).
Proof.
  intros (Hid & Hif & Hdf)%refs_distinct Hread.
  destruct (read_refs _ _ _ Hread) as (Hi & Hd & Hf).
  unfold read, mutate in *.
  rewrite lookup_alter_eq, !lookup_alter_ne, Hi, Hd, Hf by done.
  rewrite Hi, Hd, Hf in Hread. by injection Hread as <-.
Qed.

Lemma read_Map_set_defines (σ : store) (config : ConfigObject)
    (contents : CompileConfig) (define : Define) :
  NoDup (refs config) → read σ config = Some contents →
  read (mutate (Map_set (key define) define) (defines_ref config) σ) config
  = Some (set_define define contents).
Proof.
  intros (Hid & Hif & Hdf)%refs_distinct Hread.
  destruct (read_refs _ _ _ Hread) as (Hi & Hd & Hf).
  unfold read, mutate in *.
  rewrite lookup_alter_eq, !lookup_alter_ne, Hi, Hd, Hf by done.
  rewrite Hi, Hd, Hf in Hread. by injection Hread as <-.
Qed.

Lemma read_Set_add_forcedIncludes (σ : store) (config : ConfigObject)
    (contents : CompileConfig) (path : string) :
  NoDup (refs config) → read σ config = Some contents →
  read (mutate (Set_add path) (forcedIncludes_ref config) σ) config
  = Some (add_forcedInclude path contents).
Proof.
  intros (Hid & Hif & Hdf)%refs_distinct Hread.
  destruct (read_refs _ _ _ Hread) as (Hi & Hd & Hf).
  unfold read, mutate in *.
  rewrite lookup_alter_eq, !lookup_alter_ne, Hi, Hd, Hf by done.
  rewrite Hi, Hd, Hf in Hread. by injection Hread as <-.
Qed.

(** The in-place loop computes, in the containers of the configuration it is
    given, what the loop over configurations computes. *)
Lemma InPlace_process_args_read (flag : string) (config : ConfigObject) :
  NoDup (refs config) →
  ∀ args σ contents,
    read σ config = Some contents →
    read (InPlace.process_args flag args config σ) config
    = Some (process_args flag args contents).
Proof.
  intros Hdistinct args.
  induction args as [args IH] using (induction_ltof1 _ (@length string)).
  unfold ltof in IH. intros σ contents Hread.
  destruct args as [|arg rest]; [done|].
  cbn [InPlace.process_args process_args].
  destruct (negb (JS.truthy (Some arg))); [done|].
  destruct (_ || _); [apply IH; [simpl; lia | done]|].
  destruct (String.eqb (JS.charAt arg 1) "D").
  { apply IH; [simpl; lia | by apply read_Map_set_defines]. }
  destruct (String.eqb (JS.charAt arg 1) "I").
  { apply IH; [simpl; lia | by apply read_Set_add_includes]. }
  destruct (String.eqb arg flag); [|apply IH; [simpl; lia | done]].
  destruct rest as [|include rest]; [done|].
  destruct (JS.truthy (Some include)).
  - apply IH; [simpl; lia | by apply read_Set_add_forcedIncludes].
  - apply IH; [simpl; lia | done].
Qed.

(** It writes to no container but the three of that configuration. *)
Lemma InPlace_process_args_frame (flag : string) (config : ConfigObject)
    (l : loc) :
  l ∉ refs config →
  ∀ args σ, InPlace.process_args flag args config σ !! l = σ !! l.
Proof.
  intros Hl args. unfold refs in Hl.
  rewrite !not_elem_of_cons in Hl. destruct Hl as (Hi & Hd & Hf & _).
  induction args as [args IH] using (induction_ltof1 _ (@length string)).
  unfold ltof in IH. intros σ.
  destruct args as [|arg rest]; [done|].
  cbn [InPlace.process_args].
  destruct (negb (JS.truthy (Some arg))); [done|].
  destruct (_ || _); [apply IH; simpl; lia|].
  destruct (String.eqb (JS.charAt arg 1) "D").
  { rewrite IH by (simpl; lia). unfold mutate. by apply lookup_alter_ne. }
  destruct (String.eqb (JS.charAt arg 1) "I").
  { rewrite IH by (simpl; lia). unfold mutate. by apply lookup_alter_ne. }
  destruct (String.eqb arg flag); [|apply IH; simpl; lia].
  destruct rest as [|include rest]; [done|].
  destruct (JS.truthy (Some include)).
  - rewrite IH by (simpl; lia). unfold mutate. by apply lookup_alter_ne.
  - apply IH; simpl; lia.
Qed.

(** What [cloneConfig] returns, for any other configuration in the store. *)
Lemma cloneConfig_spec (σ : store) (config : ConfigObject)
    (contents : CompileConfig) :
  read σ config = Some contents →
  ∃ σ' clone,
    cloneConfig σ config = Some (σ', clone)
    ∧ read σ' clone = Some contents
    ∧ NoDup (refs clone)
    ∧ (∀ l, l ∈ refs clone → σ !! l = None)
    ∧ (∀ l, is_Some (σ !! l) → σ' !! l = σ !! l).
Proof.
  intros Hread.
  destruct (cloneConfig_fresh _ _ _ Hread)
    as (i & d & f & Hi & Hd & Hf & Hid & Hif & Hdf & Hclone).
  eexists _, _. split; [exact Hclone|]. split; [|split; [|split]].
  - unfold read. cbn [includes_ref defines_ref forcedIncludes_ref mode std].
    rewrite lookup_insert_ne, lookup_insert_ne, lookup_insert_eq by done.
    rewrite lookup_insert_ne, lookup_insert_eq by done.
    rewrite lookup_insert_eq.
    destruct (read_refs _ _ _ Hread) as (Hi' & Hd' & Hf').
    unfold read in Hread. rewrite Hi', Hd', Hf' in Hread.
    by injection Hread as <-.
  - unfold refs. cbn [includes_ref defines_ref forcedIncludes_ref].
    rewrite !NoDup_cons, !not_elem_of_cons.
    repeat split; try done; try apply not_elem_of_nil. apply NoDup_nil_2.
  - intros l. unfold refs. cbn [includes_ref defines_ref forcedIncludes_ref].
    rewrite !elem_of_cons, elem_of_nil. by intros [->|[->|[->|[]]]].
  - intros l [v Hv].
    rewrite !lookup_insert_ne; [done|congruence..].
Qed.

Lemma read_preserved (σ σ' : store) (config : ConfigObject)
    (contents : CompileConfig) :
  read σ config = Some contents →
  (∀ l, is_Some (σ !! l) → σ' !! l = σ !! l) →
  read σ' config = Some contents.
Proof.
  intros Hread Hsame. rewrite <- Hread. apply read_ext.
  destruct (read_refs _ _ _ Hread) as (Hi & Hd & Hf).
  intros l. unfold refs. rewrite !elem_of_cons, elem_of_nil.
  intros [->|[->|[->|[]]]]; apply Hsame; eauto.
Qed.

Lemma refs_allocated (σ : store) (config : ConfigObject)
    (contents : CompileConfig) (l : loc) :
  read σ config = Some contents → l ∈ refs config → is_Some (σ !! l).
Proof.
  intros Hread. destruct (read_refs _ _ _ Hread) as (Hi & Hd & Hf).
  unfold refs. rewrite !elem_of_cons, elem_of_nil.
  intros [->|[->|[->|[]]]]; eauto.
Qed.

End InPlaceFacts.

Lemma read_mutate_all_elsewhere (σ : Heap.store) (config : Heap.ConfigObject)
    (contents : CompileConfig) (calls : list (Heap.mutation * positive)) :
  Heap.read σ config = Some contents →
  Forall (λ call, call.2 ∉ Heap.refs config) calls →
  Heap.read (Heap.mutate_all calls σ) config = Some contents.
Proof.
  intros Hread Hcalls. rewrite <- Hread. apply read_ext.
  intros l Hl. apply mutate_all_lookup.
  eapply Forall_impl; [exact Hcalls|].
  intros call Hcall Heq. apply Hcall. by rewrite Heq.
Qed.

(** X9. On a configuration object with three distinct containers, the
    in-place [addCompilerArgumentsToConfig] leaves in them exactly the
    contents the function over configurations computes, and writes to no
    other container of the store. *)
Theorem InPlace_addCompilerArgumentsToConfig_agrees
    (splitCmdLine : string → list string) (cmdLine : option string)
    (forceIncludeArg : string) (config : Heap.ConfigObject)
    (σ : Heap.store) (contents : CompileConfig) :
  NoDup (Heap.refs config) →
  Heap.read σ config = Some contents →
  let σ' :=
    InPlace.addCompilerArgumentsToConfig splitCmdLine cmdLine forceIncludeArg
      config σ in
  Heap.read σ' config
  = Some (addCompilerArgumentsToConfig splitCmdLine cmdLine forceIncludeArg
            contents)
  ∧ ∀ l, l ∉ Heap.refs config → σ' !! l = σ !! l.
Proof.
  intros Hdistinct Hread.
  unfold InPlace.addCompilerArgumentsToConfig, addCompilerArgumentsToConfig.
  destruct (negb (JS.truthy cmdLine)); [done|]. split.
  - by apply InPlace_process_args_read.
  - intros l Hl. by apply InPlace_process_args_frame.
Qed.

Lemma InPlace_addCompilerArgumentsToConfig_agrees_witness :
  Heap.read
    (InPlace.addCompilerArgumentsToConfig Tokenizer.splitCmdLine
       (Some "-DDEBUG=1 -I/src/xpcom -include mozilla-config.h") "-include"
       defaults_fixture store_fixture)
    defaults_fixture
  = Some (addCompilerArgumentsToConfig Tokenizer.splitCmdLine
            (Some "-DDEBUG=1 -I/src/xpcom -include mozilla-config.h")
            "-include" contents_fixture).
Proof.
  apply (InPlace_addCompilerArgumentsToConfig_agrees Tokenizer.splitCmdLine
           (Some "-DDEBUG=1 -I/src/xpcom -include mozilla-config.h")
           "-include" defaults_fixture store_fixture contents_fixture).
  - compute_done.
  - vm_compute. reflexivity.
Defined.

(** X10. The per-file flow: cloning the defaults and applying a command
    line to the clone gives the clone the overridden contents and leaves the
    defaults with the contents they had. *)
Theorem clone_then_override_keeps_defaults
    (splitCmdLine : string → list string) (cmdLine : option string)
    (forceIncludeArg : string) (σ : Heap.store)
    (defaults : Heap.ConfigObject) (contents : CompileConfig) :
  Heap.read σ defaults = Some contents →
  ∃ σ' clone,
    Heap.getDefaultConfiguration σ defaults = Some (σ', clone)
    ∧ Heap.read
        (InPlace.addCompilerArgumentsToConfig splitCmdLine cmdLine
           forceIncludeArg clone σ') clone
      = Some (addCompilerArgumentsToConfig splitCmdLine cmdLine
                forceIncludeArg contents)
    ∧ Heap.read
        (InPlace.addCompilerArgumentsToConfig splitCmdLine cmdLine
           forceIncludeArg clone σ') defaults
      = Some contents.
Proof.
  intros Hread.
  destruct (cloneConfig_spec _ _ _ Hread)
    as (σ' & clone & Hclone & Hcontents & Hdistinct & Hfresh & Hkept).
  exists σ', clone. split; [exact Hclone|].
  unfold InPlace.addCompilerArgumentsToConfig, addCompilerArgumentsToConfig.
  destruct (negb (JS.truthy cmdLine)).
  - split; [done|]. by eapply read_preserved.
  - split; [by apply InPlace_process_args_read|].
    rewrite <- Hread. apply read_ext. intros l Hl.
    pose proof (refs_allocated _ _ _ _ Hread Hl) as Hsome.
    rewrite InPlace_process_args_frame; [by apply Hkept|].
    intros Hin. apply Hfresh in Hin. rewrite Hin in Hsome. by destruct Hsome.
Qed.

Lemma clone_then_override_keeps_defaults_witness :
  ∃ σ' clone,
    Heap.getDefaultConfiguration store_fixture defaults_fixture
      = Some (σ', clone)
    ∧ Heap.read
        (InPlace.addCompilerArgumentsToConfig Tokenizer.splitCmdLine
           (Some "-DDEBUG=1") "-include" clone σ') clone
      = Some (addCompilerArgumentsToConfig Tokenizer.splitCmdLine
                (Some "-DDEBUG=1") "-include" contents_fixture)
    ∧ Heap.read
        (InPlace.addCompilerArgumentsToConfig Tokenizer.splitCmdLine
           (Some "-DDEBUG=1") "-include" clone σ') defaults_fixture
      = Some contents_fixture.
Proof.
  apply (clone_then_override_keeps_defaults Tokenizer.splitCmdLine
           (Some "-DDEBUG=1") "-include" store_fixture defaults_fixture
           contents_fixture).
  vm_compute. reflexivity.
Defined.

(** X11. [getIncludePaths] hands out a new set with the includes of the
    defaults: whatever is done to that set, the defaults keep their
    contents. *)
Theorem getIncludePaths_is_a_copy (σ : Heap.store)
    (defaults : Heap.ConfigObject) (contents : CompileConfig) :
  Heap.read σ defaults = Some contents →
  ∃ σ' l,
    Heap.getIncludePaths σ defaults = Some (σ', l)
    ∧ σ !! l = None
    ∧ σ' !! l = Some (Heap.SetObject (includes contents))
    ∧ ∀ calls,
        Forall (λ call, call.2 = l) calls →
        Heap.read (Heap.mutate_all calls σ') defaults = Some contents.
Proof.
  intros Hread.
  destruct (read_refs _ _ _ Hread) as (Hi & Hd & Hf).
  unfold Heap.getIncludePaths, Heap.new_Set, Heap.alloc. rewrite Hi.
  pose proof (is_fresh (dom σ)) as Hfresh%not_elem_of_dom.
  eexists _, _. split; [reflexivity|]. split; [exact Hfresh|].
  split; [apply lookup_insert_eq|].
  intros calls Hcalls. apply read_mutate_all_elsewhere.
  - eapply read_preserved; [exact Hread|].
    intros l [v Hv]. rewrite lookup_insert_ne; [done|congruence].
  - eapply Forall_impl; [exact Hcalls|].
    intros call -> Hin.
    pose proof (refs_allocated _ _ _ _ Hread Hin) as [v Hv]. congruence.
Qed.

Lemma getIncludePaths_is_a_copy_witness :
  ∃ σ' l,
    Heap.getIncludePaths store_fixture defaults_fixture = Some (σ', l)
    ∧ store_fixture !! l = None
    ∧ σ' !! l = Some (Heap.SetObject (includes contents_fixture))
    ∧ ∀ calls,
        Forall (λ call, call.2 = l) calls →
        Heap.read (Heap.mutate_all calls σ') defaults_fixture
        = Some contents_fixture.
Proof.
  apply (getIncludePaths_is_a_copy store_fixture defaults_fixture
           contents_fixture).
  vm_compute. reflexivity.
Defined.

(** X12. Two clones of the same defaults share no container: each holds the
    contents of the defaults, and mutating the containers of one never
    changes what the other holds. *)
Theorem clones_are_independent (σ : Heap.store)
    (defaults : Heap.ConfigObject) (contents : CompileConfig) :
  Heap.read σ defaults = Some contents →
  ∃ σ1 clone1 σ2 clone2,
    Heap.getDefaultConfiguration σ defaults = Some (σ1, clone1)
    ∧ Heap.getDefaultConfiguration σ1 defaults = Some (σ2, clone2)
    ∧ (∀ l, l ∈ Heap.refs clone1 → l ∉ Heap.refs clone2)
    ∧ (∀ calls,
          Forall (λ call, call.2 ∈ Heap.refs clone2) calls →
          Heap.read (Heap.mutate_all calls σ2) clone1 = Some contents)
    ∧ (∀ calls,
          Forall (λ call, call.2 ∈ Heap.refs clone1) calls →
          Heap.read (Heap.mutate_all calls σ2) clone2 = Some contents).
Proof.
  intros Hread.
  destruct (cloneConfig_spec _ _ _ Hread)
    as (σ1 & clone1 & Hclone1 & Hread1 & _ & _ & Hkept1).
  pose proof (read_preserved _ _ _ _ Hread Hkept1) as Hread_defaults.
  destruct (cloneConfig_spec _ _ _ Hread_defaults)
    as (σ2 & clone2 & Hclone2 & Hread2 & _ & Hfresh2 & Hkept2).
  assert (Hdisjoint : ∀ l, l ∈ Heap.refs clone1 → l ∉ Heap.refs clone2).
  { intros l Hl1 Hl2.
    pose proof (refs_allocated _ _ _ _ Hread1 Hl1) as [v Hv].
    apply Hfresh2 in Hl2. congruence. }
  exists σ1, clone1, σ2, clone2.
  split; [exact Hclone1|]. split; [exact Hclone2|].
  split; [exact Hdisjoint|]. split.
  - intros calls Hcalls. apply read_mutate_all_elsewhere.
    + by eapply read_preserved.
    + eapply Forall_impl; [exact Hcalls|].
      intros call Hin2 Hin1. exact (Hdisjoint _ Hin1 Hin2).
  - intros calls Hcalls. apply read_mutate_all_elsewhere; [done|].
    eapply Forall_impl; [exact Hcalls|].
    intros call Hin1 Hin2. exact (Hdisjoint _ Hin1 Hin2).
Qed.

Lemma clones_are_independent_witness :
  ∃ σ1 clone1 σ2 clone2,
    Heap.getDefaultConfiguration store_fixture defaults_fixture
      = Some (σ1, clone1)
    ∧ Heap.getDefaultConfiguration σ1 defaults_fixture = Some (σ2, clone2)
    ∧ (∀ l, l ∈ Heap.refs clone1 → l ∉ Heap.refs clone2)
    ∧ (∀ calls,
          Forall (λ call, call.2 ∈ Heap.refs clone2) calls →
          Heap.read (Heap.mutate_all calls σ2) clone1 = Some contents_fixture)
    ∧ (∀ calls,
          Forall (λ call, call.2 ∈ Heap.refs clone1) calls →
          Heap.read (Heap.mutate_all calls σ2) clone2 = Some contents_fixture).
Proof.
  apply (clones_are_independent store_fixture defaults_fixture
           contents_fixture).
  vm_compute. reflexivity.
Defined.

(** ** The diagnostic parser, continued *)

(** An invariant of the configuration holds after the parse when adding an
    include-path entry and inserting a define built with a space as splitter
    preserve it. *)
Lemma scan_line_preserves (Q : CompileConfig → Prop) (line : string)
    (state next : listing * CompileConfig) :
  (∀ line path x, entry_of line path → Q x → Q (add_include path x)) →
  (∀ text x, Q x → Q (set_define (buildDefine text " ") x)) →
  scan_line line state next → Q state.2 → Q next.2.
Proof.
  intros Hinclude Hdefine Hscan.
  induction Hscan; simpl in *; eauto.
Qed.

Lemma scan_lines_preserves (Q : CompileConfig → Prop) (lines : list string)
    (state final : listing * CompileConfig) :
  (∀ line path x, entry_of line path → Q x → Q (add_include path x)) →
  (∀ text x, Q x → Q (set_define (buildDefine text " ") x)) →
  scan_lines lines state final → Q state.2 → Q final.2.
Proof.
  intros Hinclude Hdefine Hscan.
  induction Hscan as [state|line lines state state' state'' Hstep _ IH];
    [done|].
  intros HQ. apply IH. by eapply scan_line_preserves.
Qed.

Lemma parseCompilerDefaults_preserves (Q : CompileConfig → Prop)
    (output : string) (defaults : CompileConfig) :
  (∀ line path x, entry_of line path → Q x → Q (add_include path x)) →
  (∀ text x, Q x → Q (set_define (buildDefine text " ") x)) →
  Q defaults → Q (ClangCompiler_parseCompilerDefaults output defaults).
Proof.
  intros Hinclude Hdefine HQ. unfold ClangCompiler_parseCompilerDefaults.
  exact (scan_lines_preserves Q _ _ _ Hinclude Hdefine
           (foldl_parse_line_scan (JS.split "010" (JS.trim output)) false
              defaults) HQ).
Qed.

(** Which state follows and which update is made on a line does not depend
    on the configuration. *)
Lemma parse_line_uniform (inIncludes : bool) (line : string) :
  ∃ inIncludes' u,
    ∀ config,
      parse_line (inIncludes, config) line
      = (inIncludes', apply_update u config).
Proof.
  unfold parse_line.
  assert (Hrest : ∀ b, ∃ inIncludes' u, ∀ config,
    (if JS.startsWith line "#include " then (true, config)
     else if JS.startsWith line "#define " then
       (b, set_define
             (buildDefine (JS.trim (JS.substring_from line 8)) " ") config)
     else (b, config)) = (inIncludes', apply_update u config)).
  { intros b. destruct (JS.startsWith line "#include ").
    { by exists true, Keep. }
    destruct (JS.startsWith line "#define ").
    - by eexists b, (SetDefine _).
    - by exists b, Keep. }
  destruct inIncludes; [|apply Hrest].
  destruct (String.eqb (JS.charAt line 0) " "); [|apply Hrest].
  destruct (JS.endsWith (JS.trim line) FRAMEWORK_MARKER).
  - by eexists true, (AddInclude _).
  - by eexists true, (AddInclude _).
Qed.

Lemma foldl_parse_line_updates (lines : list string) (inIncludes : bool) :
  ∃ us, ∀ config,
    (foldl parse_line (inIncludes, config) lines).2 = apply_updates us config.
Proof.
  revert inIncludes. induction lines as [|line lines IH]; intros inIncludes.
  - by exists [].
  - destruct (parse_line_uniform inIncludes line) as (b' & u & Hline).
    destruct (IH b') as [us Hus].
    exists (u :: us). intros config. cbn [foldl]. by rewrite Hline, Hus.
Qed.

Lemma parseCompilerDefaults_updates (output : string) :
  ∃ us, ∀ defaults,
    ClangCompiler_parseCompilerDefaults output defaults
    = apply_updates us defaults.
Proof. apply foldl_parse_line_updates. Qed.

Lemma parseCompilerDefaults_forcedIncludes (output : string)
    (defaults : CompileConfig) :
  forcedIncludes (ClangCompiler_parseCompilerDefaults output defaults)
  = forcedIncludes defaults.
Proof.
  by apply (parseCompilerDefaults_preserves
              (λ x, forcedIncludes x = forcedIncludes defaults)).
Qed.

Lemma parseCompilerDefaults_factor (output : string)
    (defaults : CompileConfig) :
  includes (ClangCompiler_parseCompilerDefaults output defaults)
  = includes defaults
    ∪ includes (ClangCompiler_parseCompilerDefaults output no_overrides)
  ∧ defines (ClangCompiler_parseCompilerDefaults output defaults)
    = defines (ClangCompiler_parseCompilerDefaults output no_overrides)
      ∪ defines defaults
  ∧ intelliSenseMode (ClangCompiler_parseCompilerDefaults output defaults)
    = intelliSenseMode defaults
  ∧ standard (ClangCompiler_parseCompilerDefaults output defaults)
    = standard defaults.
Proof.
  destruct (parseCompilerDefaults_updates output) as [us Hus].
  rewrite !Hus.
  by destruct (apply_updates_factor us defaults) as (? & _ & ? & ? & ?).
Qed.

(** X13. The parse only adds to the includes and the defines: its result is
    what the same output gives on the empty configuration, merged over the
    given one (parsed defines winning); the forced includes, the
    IntelliSense mode and the standard are never touched. *)
Theorem parseCompilerDefaults_merges (output : string)
    (defaults : CompileConfig) :
  let found := ClangCompiler_parseCompilerDefaults output no_overrides in
  let parsed := ClangCompiler_parseCompilerDefaults output defaults in
  includes parsed = includes defaults ∪ includes found
  ∧ defines parsed = defines found ∪ defines defaults
  ∧ forcedIncludes parsed = forcedIncludes defaults
  ∧ intelliSenseMode parsed = intelliSenseMode defaults
  ∧ standard parsed = standard defaults.
Proof.
  destruct (parseCompilerDefaults_factor output defaults)
    as (Hi & Hd & Hm & Hs).
  pose proof (parseCompilerDefaults_forcedIncludes output defaults).
  done.
Qed.

Lemma apply_updates_idempotent (us : list update) (config : CompileConfig) :
  apply_updates us (apply_updates us config) = apply_updates us config.
Proof.
  destruct (apply_updates_factor us (apply_updates us config))
    as (Hi & Hf & Hd & Hm & Hs).
  destruct (apply_updates_factor us config) as (Hi' & Hf' & Hd' & _ & _).
  apply CompileConfig_eq; try done.
  - rewrite Hi, Hi'. by rewrite <- (assoc_L (∪)), (idemp_L (∪)).
  - rewrite Hd, Hd'. by rewrite (assoc_L (∪)), (idemp_L (∪)).
  - rewrite Hf, Hf'. by rewrite <- (assoc_L (∪)), (idemp_L (∪)).
Qed.

(** X14. Parsing the same output a second time changes nothing. *)
Theorem parseCompilerDefaults_idempotent (output : string)
    (defaults : CompileConfig) :
  ClangCompiler_parseCompilerDefaults output
    (ClangCompiler_parseCompilerDefaults output defaults)
  = ClangCompiler_parseCompilerDefaults output defaults.
Proof.
  destruct (parseCompilerDefaults_updates output) as [us Hus].
  rewrite !Hus. apply apply_updates_idempotent.
Qed.

Lemma foldl_parse_line_no_header (lines : list string)
    (config : CompileConfig) :
  Forall (λ line, JS.startsWith line "#include " = false) lines →
  (foldl parse_line (false, config) lines).1 = false
  ∧ includes (foldl parse_line (false, config) lines).2 = includes config.
Proof.
  intros Hlines. revert config.
  induction Hlines as [|line lines Hline _ IH]; intros config; [done|].
  cbn [foldl].
  assert (∃ config', parse_line (false, config) line = (false, config')
                     ∧ includes config' = includes config)
    as (config' & -> & <-).
  { unfold parse_line. rewrite Hline.
    destruct (JS.startsWith line "#define "); by eexists. }
  apply IH.
Qed.

Lemma foldl_parse_line_no_define (lines : list string) (inIncludes : bool)
    (config : CompileConfig) :
  Forall (λ line, JS.startsWith line "#define " = false) lines →
  defines (foldl parse_line (inIncludes, config) lines).2 = defines config.
Proof.
  intros Hlines. revert inIncludes config.
  induction Hlines as [|line lines Hline _ IH]; intros inIncludes config;
    [done|].
  cbn [foldl].
  assert (∃ inIncludes' config',
            parse_line (inIncludes, config) line = (inIncludes', config')
            ∧ defines config' = defines config)
    as (inIncludes' & config' & -> & <-).
  { unfold parse_line. rewrite Hline. repeat case_match; by eexists _, _. }
  apply IH.
Qed.

Lemma parseCompilerDefaults_no_header (output : string)
    (defaults : CompileConfig) :
  Forall (λ line, JS.startsWith line "#include " = false)
    (JS.split "010" (JS.trim output)) →
  includes (ClangCompiler_parseCompilerDefaults output defaults)
  = includes defaults.
Proof. intros Hlines. by apply foldl_parse_line_no_header. Qed.

Lemma parseCompilerDefaults_no_define (output : string)
    (defaults : CompileConfig) :
  Forall (λ line, JS.startsWith line "#define " = false)
    (JS.split "010" (JS.trim output)) →
  defines (ClangCompiler_parseCompilerDefaults output defaults)
  = defines defaults.
Proof. intros Hlines. by apply foldl_parse_line_no_define. Qed.

(** *** Lines of the trimmed text and lines of the text *)

Lemma split_trimStart_origin (s mid : string) :
  mid ∈ JS.split "010" (JS.trimStart s) →
  ∃ raw lead,
    raw ∈ JS.split "010" s ∧ raw = lead +:+ mid ∧ blank lead = true.
Proof.
  induction s as [|c s IH].
  - intros Hmid. by exists mid, "".
  - cbn [JS.trimStart]. destruct (JS.is_white c) eqn:Hc.
    + intros (raw & lead & Hraw & -> & Hblank)%IH.
      cbn [JS.split]. destruct (Ascii.eqb c "010").
      { exists (lead +:+ mid), lead. split; [|done].
        apply elem_of_cons. by right. }
      pose proof (split_nonempty "010" s).
      destruct (JS.split "010" s) as [|piece pieces]; [done|].
      apply elem_of_cons in Hraw as [<-|Hraw].
      * exists (String c (lead +:+ mid)), (String c lead).
        split; [apply elem_of_cons; by left|]. split; [done|].
        simpl. by rewrite Hc, Hblank.
      * exists (lead +:+ mid), lead. split; [|done].
        apply elem_of_cons. by right.
    + intros Hmid. by exists mid, "".
Qed.

Lemma split_cons (c : ascii) (s : string) :
  JS.split "010" (String c s)
  = if Ascii.eqb c "010" then "" :: JS.split "010" s
    else match JS.split "010" s with
         | [] => [String c ""]
         | piece :: pieces => String c piece :: pieces
         end.
Proof. done. Qed.

(** The lines of a text trimmed at its end are, one by one, prefixes of the
    first lines of the text. *)
Lemma split_trimEnd_prefixes (s : string) :
  ∃ pre rest,
    JS.split "010" s = pre ++ rest
    ∧ Forall2 (λ line raw, ∃ trail, raw = line +:+ trail)
        (JS.split "010" (JS.trimEnd s)) pre.
Proof.
  induction s as [|c s (pre & rest & Hsplit & Hpre)].
  - exists [""], []. split; [done|]. repeat constructor. by exists "".
  - cbn [JS.trimEnd]. destruct (JS.trimEnd s) as [|d r] eqn:Hend.
    + (* everything after [c] is white space *)
      destruct (JS.is_white c) eqn:Hc.
      * pose proof (split_nonempty "010" (String c s)).
        destruct (JS.split "010" (String c s)) as [|first others]; [done|].
        exists [first], others. split; [done|].
        repeat constructor. by exists first.
      * assert (Ascii.eqb c "010" = false) as Hfeed.
        { destruct (Ascii.eqb_spec c "010") as [->|]; [done|done]. }
        cbn [JS.split]. rewrite Hfeed.
        pose proof (split_nonempty "010" s).
        destruct (JS.split "010" s) as [|piece pieces]; [done|].
        exists [String c piece], pieces. split; [done|].
        repeat constructor. by exists piece.
    + rewrite !(split_cons c). destruct (Ascii.eqb c "010").
      * exists ("" :: pre), rest. split; [by rewrite Hsplit|].
        constructor; [by exists "" | done].
      * pose proof (split_nonempty "010" (String d r)).
        destruct (JS.split "010" (String d r)) as [|line lines]; [done|].
        apply Forall2_cons_inv_l in Hpre
          as (raw & pre' & (trail & ->) & Hpre' & ->).
        rewrite Hsplit. cbn [app].
        exists (String c (line +:+ trail) :: pre'), rest. split; [done|].
        constructor; [by exists trail | done].
Qed.

Lemma split_trimEnd_origin (s line : string) :
  line ∈ JS.split "010" (JS.trimEnd s) →
  ∃ mid trail, mid ∈ JS.split "010" s ∧ mid = line +:+ trail.
Proof.
  destruct (split_trimEnd_prefixes s) as (pre & rest & -> & Hpre).
  intros (i & Hi)%list_elem_of_lookup.
  destruct (Forall2_lookup_l _ _ _ _ _ Hpre Hi) as (mid & Hmid & trail & ->).
  exists (line +:+ trail), trail. split; [|done].
  apply elem_of_app. left. by eapply list_elem_of_lookup_2.
Qed.

(** Every line of the trimmed text is a line of the text, leading white
    space and an end aside. *)
Lemma trimmed_line_origin (s line : string) :
  line ∈ JS.split "010" (JS.trim s) →
  ∃ raw lead trail,
    raw ∈ JS.split "010" s
    ∧ raw = lead +:+ line +:+ trail
    ∧ blank lead = true.
Proof.
  unfold JS.trim.
  intros (mid & trail & Hmid & ->)%split_trimEnd_origin.
  apply split_trimStart_origin in Hmid as (raw & lead & Hraw & -> & Hblank).
  by exists (lead +:+ line +:+ trail), lead, trail.
Qed.

Lemma trimmed_lines_without_marker (s marker : string) :
  Forall (λ raw, ¬ starts_after_blank marker raw) (JS.split "010" s) →
  Forall (λ line, JS.startsWith line marker = false)
    (JS.split "010" (JS.trim s)).
Proof.
  rewrite !Forall_forall. intros Hraw line Hline.
  destruct (JS.startsWith line marker) eqn:Hstarts; [|done].
  apply prefix_app in Hstarts as [rest ->].
  apply trimmed_line_origin in Hline
    as (raw & lead & trail & Hin & -> & Hblank).
  destruct (Hraw _ Hin). exists lead, (rest +:+ trail).
  by rewrite <- string_app_assoc.
Qed.

Lemma trimStart_blank_app (lead x : string) :
  blank lead = true → starts_white x = false →
  JS.trimStart (lead +:+ x) = x.
Proof.
  intros Hblank Hx. induction lead as [|c lead IH].
  - destruct x as [|d x]; [done|]. simpl in *. by rewrite Hx.
  - simpl in *. apply andb_true_iff in Hblank as [-> Hblank]. by apply IH.
Qed.

(** A test for [starts_after_blank] on a given line. *)
Lemma not_starts_after_blank (marker line : string) :
  marker ≠ "" → starts_white marker = false →
  String.prefix marker (JS.trimStart line) = false →
  ¬ starts_after_blank marker line.
Proof.
  intros Hne Hmarker Hprefix (lead & rest & -> & Hblank).
  rewrite trimStart_blank_app in Hprefix;
    [|done|by rewrite starts_white_app].
  assert (String.prefix marker (marker +:+ rest) = true)
    by (apply prefix_app; eauto).
  congruence.
Qed.

(** X15. Includes are only collected under a header: if no line of the
    output starts with "#include ", leading white space aside, the parse
    adds no include; and if no line starts with "#define ", leading white
    space aside, it adds no define. *)
Theorem parseCompilerDefaults_needs_markers (output : string)
    (defaults : CompileConfig) (lines : list string) :
  is_lines output lines →
  let parsed := ClangCompiler_parseCompilerDefaults output defaults in
  (Forall (λ line, ¬ starts_after_blank "#include " line) lines →
   includes parsed = includes defaults)
  ∧ (Forall (λ line, ¬ starts_after_blank "#define " line) lines →
     defines parsed = defines defaults).
Proof.
  intros <-%is_lines_split parsed. split.
  - intros Hlines%trimmed_lines_without_marker.
    by apply parseCompilerDefaults_no_header.
  - intros Hlines%trimmed_lines_without_marker.
    by apply parseCompilerDefaults_no_define.
Qed.

Lemma parseCompilerDefaults_needs_markers_witness :
  includes
    (ClangCompiler_parseCompilerDefaults
       (" /usr/include" +:+ newline +:+ "#define A 1") no_overrides)
  = includes no_overrides
  ∧ defines
      (ClangCompiler_parseCompilerDefaults
         ("#include <...> search starts here:" +:+ newline
          +:+ " /usr/include") no_overrides)
    = defines no_overrides.
Proof.
  split.
  - apply (proj1 (parseCompilerDefaults_needs_markers
                    (" /usr/include" +:+ newline +:+ "#define A 1")
                    no_overrides [" /usr/include"; "#define A 1"]
                    ltac:(by repeat constructor))).
    repeat constructor; by apply not_starts_after_blank.
  - apply (proj2 (parseCompilerDefaults_needs_markers
                    ("#include <...> search starts here:" +:+ newline
                     +:+ " /usr/include") no_overrides
                    ["#include <...> search starts here:"; " /usr/include"]
                    ltac:(by repeat constructor))).
    repeat constructor; by apply not_starts_after_blank.
Defined.

(** X16. Every define found after the parse is either an entry the
    configuration already had, untouched, or a define stored under its own
    key, and that key contains no space. *)
Theorem parseCompilerDefaults_define_entries (output : string)
    (defaults : CompileConfig) (k : string) (d : Define) :
  defines (ClangCompiler_parseCompilerDefaults output defaults) !! k
    = Some d →
  defines defaults !! k = Some d ∨ (key d = k ∧ ¬ occurs " " k).
Proof.
  revert k d.
  apply (parseCompilerDefaults_preserves
           (λ x, ∀ k d, defines x !! k = Some d →
                   defines defaults !! k = Some d
                   ∨ (key d = k ∧ ¬ occurs " " k))).
  - intros line path x _ Hx. exact Hx.
  - intros text x Hx k d. simpl.
    destruct (decide (key (buildDefine text " ") = k)) as [<-|Hne].
    + rewrite lookup_insert_eq. intros [= <-]. right. split; [done|].
      apply buildDefine_key_free.
    + rewrite lookup_insert_ne by done. apply Hx.
  - intros k d. by left.
Qed.

Lemma parseCompilerDefaults_define_entries_witness :
  defines no_overrides !! "__VERSION__"
    = Some {| key := "__VERSION__";
              value := double_quote +:+ "1" +:+ double_quote |}
  ∨ (key {| key := "__VERSION__";
            value := double_quote +:+ "1" +:+ double_quote |}
     = "__VERSION__"
     ∧ ¬ occurs " " "__VERSION__").
Proof.
  apply (parseCompilerDefaults_define_entries probe_fixture no_overrides).
  vm_compute. reflexivity.
Defined.

Lemma trimStart_head (s : string) :
  JS.trimStart s = ""
  ∨ ∃ c r, JS.trimStart s = String c r ∧ JS.is_white c = false.
Proof.
  induction s as [|c s IH]; [by left|].
  cbn [JS.trimStart]. destruct (JS.is_white c) eqn:Hc; [exact IH|].
  right. by exists c, s.
Qed.

Lemma trim_head (s : string) :
  JS.trim s = "" ∨ ∃ c r, JS.trim s = String c r ∧ JS.is_white c = false.
Proof.
  unfold JS.trim.
  destruct (trimStart_head s) as [->|(c & r & -> & Hc)]; [by left|].
  right. cbn [JS.trimEnd]. rewrite Hc.
  destruct (JS.trimEnd r); by eexists _, _.
Qed.

(** X17. An include path added by the parse never starts with white space:
    every include found afterwards was there before, or is empty, or starts
    with a character that is not white space. *)
Theorem parseCompilerDefaults_include_entries (output : string)
    (defaults : CompileConfig) (path : string) :
  path ∈ includes (ClangCompiler_parseCompilerDefaults output defaults) →
  path ∈ includes defaults
  ∨ path = ""
  ∨ ∃ c r, path = String c r ∧ JS.is_white c = false.
Proof.
  revert path.
  apply (parseCompilerDefaults_preserves
           (λ x, ∀ path, path ∈ includes x →
                   path ∈ includes defaults ∨ path = ""
                   ∨ ∃ c r, path = String c r ∧ JS.is_white c = false)).
  - intros line entry x Hentry Hx path. simpl.
    rewrite elem_of_union, elem_of_singleton. intros [->|Hin]; [|by apply Hx].
    right. destruct Hentry as [entry Hframework|Hplain].
    + destruct entry as [|c r]; [by left|right].
      destruct (trim_head line) as [Hnil|(c' & r' & Heq & Hc')].
      * rewrite Hnil in Hframework. discriminate.
      * rewrite Heq in Hframework. simpl in Hframework.
        injection Hframework as -> _. by exists c, r.
    + destruct (trim_head line) as [->|(c & r & -> & Hc)]; [by left|right].
      by exists c, r.
  - intros text x Hx. exact Hx.
  - intros path Hin. by left.
Qed.

Lemma parseCompilerDefaults_include_entries_witness :
  "/usr/include" ∈ includes no_overrides
  ∨ "/usr/include" = ""
  ∨ ∃ c r, "/usr/include" = String c r ∧ JS.is_white c = false.
Proof.
  apply (parseCompilerDefaults_include_entries probe_fixture no_overrides).
  vm_compute. set_solver.
Defined.

(** ** Probe, factory and reported state, continued *)

Lemma keyed_parseCompilerDefaults (output : string)
    (defaults : CompileConfig) :
  keyed defaults → keyed (ClangCompiler_parseCompilerDefaults output defaults).
Proof.
  apply (parseCompilerDefaults_preserves keyed).
  - intros line path x _ Hx. exact Hx.
  - intros text x Hx k d. simpl.
    destruct (decide (key (buildDefine text " ") = k)) as [<-|Hne].
    + rewrite lookup_insert_eq. by intros [= <-].
    + rewrite lookup_insert_ne by done. apply Hx.
Qed.

Lemma probed_defaults_fields (kind : FileType) (result : ProcessResult) :
  forcedIncludes (probed_defaults kind result) = ∅
  ∧ intelliSenseMode (probed_defaults kind result) = clang_x64
  ∧ standard (probed_defaults kind result)
    = match kind with C => c99 | CPP => cpp14 end
  ∧ keyed (probed_defaults kind result).
Proof.
  unfold probed_defaults. repeat split.
  - by rewrite !parseCompilerDefaults_forcedIncludes.
  - destruct (parseCompilerDefaults_factor (stderr result)
      (ClangCompiler_parseCompilerDefaults (stdout result)
         {| includes := ∅; defines := ∅; forcedIncludes := ∅;
            intelliSenseMode := clang_x64;
            standard := match kind with
                        | C => C_STANDARD
                        | CPP => CPP_STANDARD
                        end |})) as (_ & _ & -> & _).
    by destruct (parseCompilerDefaults_factor (stdout result)
      {| includes := ∅; defines := ∅; forcedIncludes := ∅;
         intelliSenseMode := clang_x64;
         standard := match kind with
                     | C => C_STANDARD
                     | CPP => CPP_STANDARD
                     end |}) as (_ & _ & -> & _).
  - destruct (parseCompilerDefaults_factor (stderr result)
      (ClangCompiler_parseCompilerDefaults (stdout result)
         {| includes := ∅; defines := ∅; forcedIncludes := ∅;
            intelliSenseMode := clang_x64;
            standard := match kind with
                        | C => C_STANDARD
                        | CPP => CPP_STANDARD
                        end |})) as (_ & _ & _ & ->).
    destruct (parseCompilerDefaults_factor (stdout result)
      {| includes := ∅; defines := ∅; forcedIncludes := ∅;
         intelliSenseMode := clang_x64;
         standard := match kind with
                     | C => C_STANDARD
                     | CPP => CPP_STANDARD
                     end |}) as (_ & _ & _ & ->).
    by destruct kind.
  - do 2 apply keyed_parseCompilerDefaults. by intros k d.
Qed.

(** X18. A compiler object [ClangCompiler.fetch] resolves with is a
    [ClangCompiler] for the source root, command and file type it was asked
    for (the command as given, not the probe's); its defaults are the parse
    of the two streams, in "clang-x64" mode, with standard c99 for C and
    c++14 for C++, without forced includes, and with every define stored
    under its own key. *)
Theorem ClangCompiler_fetch_resolved {Path : Type} (platform : string)
    (getCompiler : Path → FileType → option CmdArgs)
    (exec : CmdArgs → outcome ProcessResult)
    (root : Path) (cmd : CmdArgs) (kind : FileType)
    (buildConfig : gmap string string) (compiler : Compiler Path) :
  ClangCompiler_fetch platform getCompiler exec root cmd kind buildConfig
    = Resolved compiler →
  class compiler = ClangCompiler
  ∧ srcdir compiler = root
  ∧ command compiler = cmd
  ∧ type compiler = kind
  ∧ (∃ result,
        exec (probe_command platform getCompiler root cmd kind buildConfig)
          = Resolved result
        ∧ defaults compiler = probed_defaults kind result)
  ∧ intelliSenseMode (defaults compiler) = clang_x64
  ∧ standard (defaults compiler) = match kind with C => c99 | CPP => cpp14 end
  ∧ forcedIncludes (defaults compiler) = ∅
  ∧ keyed (defaults compiler).
Proof.
  unfold ClangCompiler_fetch.
  destruct (exec _) as [result|message] eqn:Hexec; [|done].
  destruct (_ || _); [done|].
  intros [= <-]. cbn [class srcdir command type defaults].
  destruct (probed_defaults_fields kind result) as (Hf & Hm & Hs & Hk).
  repeat split; try done. by exists result.
Qed.

Lemma ClangCompiler_fetch_resolved_witness :
  forcedIncludes
    (probed_defaults CPP {| stdout := ""; stderr := probe_fixture |}) = ∅.
Proof.
  apply (ClangCompiler_fetch_resolved "linux" (λ (_ : string) _, None)
           (λ _, Resolved {| stdout := ""; stderr := probe_fixture |})
           "/src" ["clang"] CPP ∅
           (mkCompiler ClangCompiler "/src" ["clang"] CPP
              (probed_defaults CPP
                 {| stdout := ""; stderr := probe_fixture |}))).
  vm_compute. reflexivity.
Defined.

(** X19. When exec resolves but no line of either stream starts with
    "#include ", leading white space aside (or none starts with
    "#define "), [ClangCompiler.fetch] rejects with the empty-result
    error. *)
Theorem ClangCompiler_fetch_needs_markers {Path : Type} (platform : string)
    (getCompiler : Path → FileType → option CmdArgs)
    (exec : CmdArgs → outcome ProcessResult)
    (root : Path) (cmd : CmdArgs) (kind : FileType)
    (buildConfig : gmap string string) (result : ProcessResult)
    (marker : string) (out_lines err_lines : list string) :
  exec (probe_command platform getCompiler root cmd kind buildConfig)
    = Resolved result →
  marker = "#include " ∨ marker = "#define " →
  is_lines (stdout result) out_lines →
  is_lines (stderr result) err_lines →
  Forall (λ line, ¬ starts_after_blank marker line) out_lines →
  Forall (λ line, ¬ starts_after_blank marker line) err_lines →
  ClangCompiler_fetch platform getCompiler exec root cmd kind buildConfig
  = Rejected EMPTY_RESULT.
Proof.
  intros Hexec Hmarker <-%is_lines_split <-%is_lines_split
    Hout%trimmed_lines_without_marker Herr%trimmed_lines_without_marker.
  unfold ClangCompiler_fetch.
  rewrite Hexec. unfold probed_defaults.
  destruct Hmarker as [-> | ->].
  - rewrite (parseCompilerDefaults_no_header _ _ Herr).
    rewrite (parseCompilerDefaults_no_header _ _ Hout).
    cbn [includes]. by rewrite (proj2 (gset_size_zero ∅)).
  - rewrite (parseCompilerDefaults_no_define _ _ Herr).
    rewrite (parseCompilerDefaults_no_define _ _ Hout).
    cbn [defines]. rewrite (proj2 (gmap_size_zero ∅)) by done.
    by rewrite orb_true_r.
Qed.

Lemma ClangCompiler_fetch_needs_markers_witness :
  ClangCompiler_fetch "linux" (λ (_ : string) _, None)
    (λ _, Resolved {| stdout := "clang version 9"; stderr := "#define A 1" |})
    "/src" ["clang"] C ∅
  = Rejected EMPTY_RESULT.
Proof.
  apply (ClangCompiler_fetch_needs_markers "linux" (λ (_ : string) _, None)
           (λ _, Resolved {| stdout := "clang version 9";
                             stderr := "#define A 1" |})
           "/src" ["clang"] C ∅
           {| stdout := "clang version 9"; stderr := "#define A 1" |}
           "#include " ["clang version 9"] ["#define A 1"]).
  - reflexivity.
  - by left.
  - by repeat constructor.
  - by repeat constructor.
  - repeat constructor; by apply not_starts_after_blank.
  - repeat constructor; by apply not_starts_after_blank.
Defined.

(** X20. The build configuration reaches the probe only through
    "MACOS_SDK_DIR", and only on darwin: two build configurations that agree
    on that key, or any two off darwin, give the same outcome. *)
Theorem ClangCompiler_fetch_buildConfig {Path : Type} (platform : string)
    (getCompiler : Path → FileType → option CmdArgs)
    (exec : CmdArgs → outcome ProcessResult)
    (root : Path) (cmd : CmdArgs) (kind : FileType)
    (buildConfig1 buildConfig2 : gmap string string) :
  platform ≠ "darwin"
  ∨ buildConfig1 !! "MACOS_SDK_DIR" = buildConfig2 !! "MACOS_SDK_DIR" →
  ClangCompiler_fetch platform getCompiler exec root cmd kind buildConfig1
  = ClangCompiler_fetch platform getCompiler exec root cmd kind buildConfig2.
Proof.
  intros Hsame. unfold ClangCompiler_fetch.
  assert (probe_command platform getCompiler root cmd kind buildConfig1
          = probe_command platform getCompiler root cmd kind buildConfig2)
    as ->; [|done].
  unfold probe_command. destruct Hsame as [Hplatform|Hsdk].
  - apply String.eqb_neq in Hplatform. by rewrite Hplatform.
  - by rewrite Hsdk.
Qed.

Lemma ClangCompiler_fetch_buildConfig_witness :
  ClangCompiler_fetch "linux" (λ (_ : string) _, None)
    (λ _, Rejected "spawn ENOENT") "/src" ["clang"] C
    {["MACOS_SDK_DIR" := "/sdk"]}
  = ClangCompiler_fetch "linux" (λ (_ : string) _, None)
      (λ _, Rejected "spawn ENOENT") "/src" ["clang"] C ∅.
Proof.
  apply (ClangCompiler_fetch_buildConfig "linux" (λ (_ : string) _, None)
           (λ _, Rejected "spawn ENOENT") "/src" ["clang"] C
           {["MACOS_SDK_DIR" := "/sdk"]} ∅).
  left. discriminate.
Defined.

(** X21. [Compiler.create] only ever resolves for the identifier "clang",
    and then with a [ClangCompiler] that has at least one include and one
    define; no build configuration yields an [MsvcCompiler]. *)
Theorem Compiler_create_resolved {Path : Type} (platform : string)
    (getCompiler : Path → FileType → option CmdArgs)
    (exec : CmdArgs → outcome ProcessResult)
    (root : Path) (cmd : CmdArgs) (kind : FileType)
    (config : gmap string string) (compiler : Compiler Path) :
  Compiler_create platform getCompiler exec root cmd kind config
    = Resolved compiler →
  config !! "CC_TYPE" = Some "clang"
  ∧ class compiler = ClangCompiler
  ∧ includes (defaults compiler) ≠ ∅
  ∧ defines (defaults compiler) ≠ ∅.
Proof.
  unfold Compiler_create.
  destruct (config !! "CC_TYPE") as [identifier|]; [|done].
  destruct (negb (JS.truthy (Some identifier))); [done|].
  cbn [from_option id].
  destruct (String.eqb_spec identifier "clang") as [->|_].
  - unfold ClangCompiler_fetch.
    destruct (exec _) as [result|message]; [|done].
    destruct (size (includes _) =? 0)%nat eqn:Hi; [done|].
    destruct (size (defines _) =? 0)%nat eqn:Hd; [done|].
    intros [= <-]. cbn [class defaults]. repeat split; try done.
    + intros Hempty%gset_size_zero. congruence.
    + intros Hempty%gmap_size_zero. congruence.
  - destruct (_ || _); [|done].
    unfold MsvcCompiler_fetch. cbn [includes defines].
    by rewrite (proj2 (gset_size_zero ∅)).
Qed.

Lemma Compiler_create_resolved_witness :
  ({["CC_TYPE" := "clang"]} : gmap string string) !! "CC_TYPE" = Some "clang"
  ∧ class (mkCompiler ClangCompiler "/src" ["clang"] CPP
             (probed_defaults CPP
                {| stdout := ""; stderr := probe_fixture |}))
    = ClangCompiler
  ∧ includes (probed_defaults CPP {| stdout := ""; stderr := probe_fixture |})
    ≠ ∅
  ∧ defines (probed_defaults CPP {| stdout := ""; stderr := probe_fixture |})
    ≠ ∅.
Proof.
  apply (Compiler_create_resolved "linux" (λ (_ : string) _, None)
           (λ _, Resolved {| stdout := ""; stderr := probe_fixture |})
           "/src" ["clang"] CPP {["CC_TYPE" := "clang"]}
           (mkCompiler ClangCompiler "/src" ["clang"] CPP
              (probed_defaults CPP
                 {| stdout := ""; stderr := probe_fixture |}))).
  vm_compute. reflexivity.
Defined.

(** X22. The state reported for a compiler that [Compiler.create] resolved
    with carries the type 'clang', the command the compiler was created
    with, and counts of includes and defines that are at least one. *)
Theorem toState_of_created {Path : Type} (platform : string)
    (getCompiler : Path → FileType → option CmdArgs)
    (exec : CmdArgs → outcome ProcessResult)
    (root : Path) (cmd : CmdArgs) (kind : FileType)
    (config : gmap string string) (compiler : Compiler Path) :
  Compiler_create platform getCompiler exec root cmd kind config
    = Resolved compiler →
  let state := toState getCompiler compiler in
  state_type state = "clang"
  ∧ state_command state = cmd
  ∧ state_override state = getCompiler root kind
  ∧ (1 ≤ state_includes state)%nat
  ∧ (1 ≤ state_defines state)%nat.
Proof.
  unfold Compiler_create.
  destruct (config !! "CC_TYPE") as [identifier|]; [|done].
  destruct (negb (JS.truthy (Some identifier))); [done|].
  cbn [from_option id].
  destruct (String.eqb identifier "clang").
  - unfold ClangCompiler_fetch.
    destruct (exec _) as [result|message]; [|done].
    destruct (size (includes _) =? 0)%nat eqn:Hi; [done|].
    destruct (size (defines _) =? 0)%nat eqn:Hd; [done|].
    intros [= <-]. cbn.
    apply Nat.eqb_neq in Hi, Hd. repeat split; try done; lia.
  - destruct (_ || _); [|done].
    unfold MsvcCompiler_fetch. cbn [includes defines].
    by rewrite (proj2 (gset_size_zero ∅)).
Qed.

Lemma toState_of_created_witness :
  state_type
    (toState (λ (_ : string) _, None)
       (mkCompiler ClangCompiler "/src" ["clang"] CPP
          (probed_defaults CPP {| stdout := ""; stderr := probe_fixture |})))
  = "clang".
Proof.
  apply (toState_of_created "linux" (λ (_ : string) _, None)
           (λ _, Resolved {| stdout := ""; stderr := probe_fixture |})
           "/src" ["clang"] CPP {["CC_TYPE" := "clang"]}
           (mkCompiler ClangCompiler "/src" ["clang"] CPP
              (probed_defaults CPP
                 {| stdout := ""; stderr := probe_fixture |}))).
  vm_compute. reflexivity.
Defined.

(** X23. Which stream carries which part of the diagnostic output does not
    matter for what is collected: swapping the captured stdout and stderr
    gives the same includes, the same define keys and the same (empty)
    forced includes. *)
Theorem probed_defaults_streams_swap (kind : FileType) (out err : string) :
  let probed := probed_defaults kind {| stdout := out; stderr := err |} in
  let swapped := probed_defaults kind {| stdout := err; stderr := out |} in
  includes probed = includes swapped
  ∧ dom (defines probed) = dom (defines swapped)
  ∧ forcedIncludes probed = forcedIncludes swapped.
Proof.
  unfold probed_defaults. cbn [stdout stderr].
  set (fresh := {| includes := ∅; defines := ∅; forcedIncludes := ∅;
                   intelliSenseMode := clang_x64;
                   standard := match kind with
                               | C => C_STANDARD
                               | CPP => CPP_STANDARD
                               end |}).
  destruct (parseCompilerDefaults_factor err
              (ClangCompiler_parseCompilerDefaults out fresh))
    as (-> & -> & _).
  destruct (parseCompilerDefaults_factor out
              (ClangCompiler_parseCompilerDefaults err fresh))
    as (-> & -> & _).
  destruct (parseCompilerDefaults_factor out fresh) as (-> & -> & _).
  destruct (parseCompilerDefaults_factor err fresh) as (-> & -> & _).
  rewrite !parseCompilerDefaults_forcedIncludes, !dom_union_L.
  repeat split.
  - rewrite <- !(assoc_L (∪)). f_equal. apply (comm_L (∪)).
  - rewrite !(assoc_L (∪)). f_equal. apply (comm_L (∪)).
Qed.

(** ** Configuration provider *)

Section ProviderFacts.

Context {Folder Uri Config : Type}.
Variable getIncludePaths : Folder → list string.
Variable getFolder : Uri → outcome (option Folder).
Variable isMozillaSource : Folder → outcome bool.
Variable getSourceConfiguration : Folder → Uri → outcome (option Config).

Lemma Set_add_spec (x : string) (s : list string) :
  NoDup s → NoDup (Set_add x s) ∧ ∀ y, y ∈ Set_add x s ↔ y ∈ s ∨ y = x.
Proof.
  intros Hs. unfold Set_add. destruct (decide (x ∈ s)) as [Hin|Hout].
  - split; [done|]. intros y. split; [by left|]. by intros [?| ->].
  - split.
    + apply NoDup_app. split; [done|]. split; [|apply NoDup_singleton].
      intros y Hy ->%list_elem_of_singleton. done.
    + intros y. by rewrite elem_of_app, list_elem_of_singleton.
Qed.

Lemma add_paths_spec (paths browsePath : list string) :
  NoDup browsePath →
  NoDup (foldl (λ browsePath path, Set_add path browsePath) browsePath paths)
  ∧ ∀ y,
      y ∈ foldl (λ browsePath path, Set_add path browsePath) browsePath paths
      ↔ y ∈ browsePath ∨ y ∈ paths.
Proof.
  revert browsePath. induction paths as [|path paths IH];
    intros browsePath Hs; cbn [foldl].
  - split; [done|]. intros y. rewrite elem_of_nil. tauto.
  - destruct (Set_add_spec path browsePath Hs) as [Hnodup Hin].
    destruct (IH _ Hnodup) as [Hnodup' Hin'].
    split; [done|]. intros y. rewrite Hin', Hin, elem_of_cons. tauto.
Qed.

Lemma add_folders_spec (folders : list Folder) (browsePath : list string) :
  NoDup browsePath →
  NoDup (foldl (λ browsePath folder,
                  foldl (λ browsePath path, Set_add path browsePath)
                    browsePath (getIncludePaths folder))
           browsePath folders)
  ∧ ∀ y,
      y ∈ foldl (λ browsePath folder,
                   foldl (λ browsePath path, Set_add path browsePath)
                     browsePath (getIncludePaths folder))
            browsePath folders
      ↔ y ∈ browsePath
        ∨ ∃ folder, folder ∈ folders ∧ y ∈ getIncludePaths folder.
Proof.
  revert browsePath. induction folders as [|folder folders IH];
    intros browsePath Hs; cbn [foldl].
  - split; [done|]. intros y. split; [by left|].
    intros [?|(folder & Hin%elem_of_nil & _)]; done.
  - destruct (add_paths_spec (getIncludePaths folder) browsePath Hs)
      as [Hnodup Hin].
    destruct (IH _ Hnodup) as [Hnodup' Hin'].
    split; [done|]. intros y. rewrite Hin', Hin. split.
    + intros [[?|?]|(folder' & ? & ?)]; [by left|right..].
      * exists folder. split; [apply elem_of_cons; by left | done].
      * exists folder'. split; [apply elem_of_cons; by right | done].
    + intros [?|(folder' & [->|?]%elem_of_cons & ?)]; [by left; left|..].
      * by left; right.
      * right. by exists folder'.
Qed.

Lemma provide_one_Some (u : Uri)
    (item : SourceFileConfigurationItem Uri Config) :
  provide_one getFolder isMozillaSource getSourceConfiguration u = Some item
  ↔ uri item = u
    ∧ ∃ folder,
        getFolder u = Resolved (Some folder)
        ∧ isMozillaSource folder = Resolved true
        ∧ getSourceConfiguration folder u
          = Resolved (Some (configuration item)).
Proof.
  unfold provide_one. split.
  - destruct (getFolder u) as [[folder|]|]; try done.
    destruct (isMozillaSource folder) as [[|]|] eqn:Hmoz; try done.
    destruct (getSourceConfiguration folder u) as [[config|]|] eqn:Hconfig;
      try done.
    intros [= <-]. split; [done|]. by exists folder.
  - intros [<- (folder & -> & -> & ->)]. by destruct item.
Qed.

End ProviderFacts.

(** X24. [provideBrowseConfiguration] resolves with no path when tag parsing
    is disabled, passes on the failure of [getMozillaFolders], and otherwise
    resolves with the include paths of the Mozilla folders, each exactly
    once. *)
Theorem provideBrowseConfiguration_paths {Folder : Type}
    (isTagParsingDisable : bool) (getMozillaFolders : outcome (list Folder))
    (getIncludePaths : Folder → list string) :
  let provided :=
    provideBrowseConfiguration isTagParsingDisable getMozillaFolders
      getIncludePaths in
  (isTagParsingDisable = true → provided = Resolved [])
  ∧ (isTagParsingDisable = false →
     ∀ e, getMozillaFolders = Rejected e → provided = Rejected e)
  ∧ (isTagParsingDisable = false →
     ∀ folders,
       getMozillaFolders = Resolved folders →
       ∃ browsePath,
         provided = Resolved browsePath
         ∧ NoDup browsePath
         ∧ ∀ path,
             path ∈ browsePath
             ↔ ∃ folder, folder ∈ folders ∧ path ∈ getIncludePaths folder).
Proof.
  unfold provideBrowseConfiguration. repeat split.
  - by intros ->.
  - by intros -> e ->.
  - intros -> folders ->. eexists. split; [reflexivity|].
    unfold collect_browsePath.
    destruct (add_folders_spec getIncludePaths folders [] (NoDup_nil_2))
      as [Hnodup Hin].
    split; [done|]. intros path. rewrite Hin, elem_of_nil. tauto.
Qed.

Lemma provideBrowseConfiguration_paths_witness :
  ∃ browsePath,
    provideBrowseConfiguration false (Resolved [0%nat; 1%nat]) folder_paths
      = Resolved browsePath
    ∧ NoDup browsePath
    ∧ ∀ path,
        path ∈ browsePath
        ↔ ∃ folder, folder ∈ [0%nat; 1%nat] ∧ path ∈ folder_paths folder.
Proof.
  apply (provideBrowseConfiguration_paths false (Resolved [0%nat; 1%nat])
           folder_paths).
  - reflexivity.
  - reflexivity.
Defined.

(** X25. [provideConfigurations] answers exactly for the URIs whose folder
    is found and is Mozilla source and whose configuration is found; the
    answer carries that configuration.  A failure of any of the three
    lookups drops the URI and fails nothing. *)
Theorem provideConfigurations_items {Folder Uri Config : Type}
    (getFolder : Uri → outcome (option Folder))
    (isMozillaSource : Folder → outcome bool)
    (getSourceConfiguration : Folder → Uri → outcome (option Config))
    (uris : list Uri) (item : SourceFileConfigurationItem Uri Config) :
  item ∈ provideConfigurations getFolder isMozillaSource
           getSourceConfiguration uris
  ↔ uri item ∈ uris
    ∧ ∃ folder,
        getFolder (uri item) = Resolved (Some folder)
        ∧ isMozillaSource folder = Resolved true
        ∧ getSourceConfiguration folder (uri item)
          = Resolved (Some (configuration item)).
Proof.
  unfold provideConfigurations. rewrite list_elem_of_omap. split.
  - intros (result & (u & -> & Hu)%list_elem_of_fmap & Hsome).
    cbn [id] in Hsome. apply provide_one_Some in Hsome as [<- Hfound].
    by split.
  - intros [Hu Hfound].
    exists (Some item). split; [|done].
    apply list_elem_of_fmap. exists (uri item). split; [|done].
    symmetry. by apply provide_one_Some.
Qed.

(** X26. The answers come in the order of the request, at most one per
    requested URI: their URIs form a subsequence of the URIs asked for. *)
Theorem provideConfigurations_order {Folder Uri Config : Type}
    (getFolder : Uri → outcome (option Folder))
    (isMozillaSource : Folder → outcome bool)
    (getSourceConfiguration : Folder → Uri → outcome (option Config))
    (uris : list Uri) :
  sublist
    (uri <$> provideConfigurations getFolder isMozillaSource
               getSourceConfiguration uris)
    uris.
Proof.
  unfold provideConfigurations.
  induction uris as [|u uris IH]; [constructor|].
  cbn [fmap list_fmap omap list_omap id].
  destruct (provide_one getFolder isMozillaSource getSourceConfiguration u)
    as [item|] eqn:Hitem.
  - apply provide_one_Some in Hitem as [<- _].
    cbn. by apply sublist_skip.
  - by apply sublist_cons.
Qed.

Lemma provideConfigurations_items_witness :
  {| uri := 2%nat; configuration := "cfg" |}
  ∈ provideConfigurations
      (λ u : nat, if Nat.even u then Resolved (Some u) else Rejected "no folder")
      (λ _ : nat, Resolved true)
      (λ (_ : nat) (_ : nat), Resolved (Some "cfg"))
      [1%nat; 2%nat; 3%nat].
Proof.
  apply (provideConfigurations_items
           (λ u : nat,
              if Nat.even u then Resolved (Some u) else Rejected "no folder")
           (λ _ : nat, Resolved true)
           (λ (_ : nat) (_ : nat), Resolved (Some "cfg"))
           [1%nat; 2%nat; 3%nat]
           {| uri := 2%nat; configuration := "cfg" |}).
  split.
  - cbn [uri]. apply elem_of_cons. right. apply elem_of_cons. by left.
  - by exists 2%nat.
Defined.

(** X27. Every compiler [Compiler.create] resolves with binds '-include' as
    its forced-include flag: its [addCompilerArgumentsToConfig] method is the
    override parser with that flag, so '-FI' is never taken as one. *)
Theorem created_compiler_forced_flag {Path : Type} (platform : string)
    (getCompiler : Path → FileType → option CmdArgs)
    (exec : CmdArgs → outcome ProcessResult)
    (root : Path) (cmd : CmdArgs) (kind : FileType)
    (buildConfig : gmap string string) (compiler : Compiler Path)
    (splitCmdLine : string → list string) (cmdLine : option string)
    (config : CompileConfig) :
  Compiler_create platform getCompiler exec root cmd kind buildConfig
    = Resolved compiler →
  Compiler_addCompilerArgumentsToConfig splitCmdLine compiler cmdLine config
  = addCompilerArgumentsToConfig splitCmdLine cmdLine "-include" config.
Proof.
  unfold Compiler_create.
  destruct (buildConfig !! "CC_TYPE") as [identifier|]; [|done].
  destruct (negb (JS.truthy (Some identifier))); [done|].
  cbn [from_option id].
  destruct (String.eqb identifier "clang").
  - unfold ClangCompiler_fetch.
    destruct (exec _) as [result|message]; [|done].
    destruct (_ || _); [done|].
    by intros [= <-].
  - destruct (_ || _); [|done].
    unfold MsvcCompiler_fetch. cbn [includes defines].
    by rewrite (proj2 (gset_size_zero ∅)).
Qed.

Lemma created_compiler_forced_flag_witness :
  Compiler_addCompilerArgumentsToConfig Tokenizer.splitCmdLine
    (mkCompiler ClangCompiler "/src" ["clang"] CPP
       (probed_defaults CPP {| stdout := ""; stderr := probe_fixture |}))
    (Some "-FI a.h -include b.h") no_overrides
  = addCompilerArgumentsToConfig Tokenizer.splitCmdLine
      (Some "-FI a.h -include b.h") "-include" no_overrides.
Proof.
  apply (created_compiler_forced_flag "linux" (λ (_ : string) _, None)
           (λ _, Resolved {| stdout := ""; stderr := probe_fixture |})
           "/src" ["clang"] CPP {["CC_TYPE" := "clang"]}).
  vm_compute. reflexivity.
Defined.
